(** * Shallow embedding of the message orchestration of EoxsAii

    Sources embedded here:
    - [src/src/server/api/routes/messages.ts]: [enhanceResponse], the routes
      [POST /], [POST /batch], [POST /generate], [GET /:id], [PUT /:id] and
      [DELETE /:id];
    - [src/src/server/services/embeddingService.ts]: [createEmbedding],
      [getRAGResponse], [enhancePromptWithRAG], [shouldUseSemanticSearch]
      and [isTrivialMessage];
    - [src/unnamed/part_003] (openai.ts): the constructor,
      [generateResponse], [generateMockResponse] and [getRelevantMemory];
    - [src/src/server/lib/db.ts]: [connectToDatabase], [withDatabase] and
      the [adminEmails] setting of the configuration module;
    - [src/api/index.ts]: [ensureDbConnection] and the serverless [handler].

    Modelling conventions.  JavaScript strings are modelled as Rocq
    [string]s over ASCII (so [length] is the JS [length] and
    [toLowerCase] is ASCII lowercasing).  A JavaScript value that may be
    something other than a string is modelled by [JsValue].  Exceptions
    are the left side of [Exc]. *)

From Stdlib Require Import String Ascii List Arith NArith Bool Lia.
Import ListNotations.
Open Scope string_scope.

(** ** JavaScript string primitives *)

Definition is_upper (c : ascii) : bool :=
  let n := nat_of_ascii c in Nat.leb 65 n && Nat.leb n 90.

Definition lower_char (c : ascii) : ascii :=
  if is_upper c then ascii_of_nat (nat_of_ascii c + 32)%nat else c.

(** [String.prototype.toLowerCase] *)
Fixpoint toLowerCase (s : string) : string :=
  match s with
  | EmptyString => EmptyString
  | String c s' => String (lower_char c) (toLowerCase s')
  end.

(** [String.prototype.includes] *)
Fixpoint includes (s kw : string) : bool :=
  if String.prefix kw s then true
  else match s with
       | EmptyString => false
       | String _ s' => includes s' kw
       end.

(** [String.prototype.substring(0, n)] *)
Definition substring0 (n : nat) (s : string) : string := String.substring 0 n s.

(** JavaScript truthiness of a string. *)
Definition str_truthy (s : string) : bool :=
  match s with EmptyString => false | _ => true end.

(** [a || b] on strings. *)
Definition str_or (a b : string) : string := if str_truthy a then a else b.

(** [x || ''] on a field that may be absent. *)
Definition opt_or (o : option string) (d : string) : string :=
  match o with Some s => str_or s d | None => d end.

(** ** JavaScript values read out of an object literal

    [enhancedResponses[key]] is a property read on a plain object
    literal: the own properties are the four entries, and every other key
    is looked up on [Object.prototype], whose members are functions (or,
    for [__proto__], the prototype object itself). *)

Inductive JsValue : Type :=
| JsUndefined
| JsStr (s : string)
| JsProtoMember (name : string).

Definition js_truthy (v : JsValue) : bool :=
  match v with
  | JsUndefined => false
  | JsStr s => str_truthy s
  | JsProtoMember _ => true
  end.

(** Own property names of [Object.prototype]. *)
Definition object_prototype_members : list string :=
  [ "constructor"; "__defineGetter__"; "__defineSetter__"; "hasOwnProperty";
    "__lookupGetter__"; "__lookupSetter__"; "isPrototypeOf";
    "propertyIsEnumerable"; "toString"; "valueOf"; "__proto__";
    "toLocaleString" ].

Fixpoint assoc_str {A} (k : string) (l : list (string * A)) : option A :=
  match l with
  | [] => None
  | (k', v) :: l' => if String.eqb k k' then Some v else assoc_str k l'
  end.

(** [obj[key]] for a plain object literal with own entries [own]. *)
Definition object_get (own : list (string * string)) (key : string) : JsValue :=
  match assoc_str key own with
  | Some v => JsStr v
  | None =>
      if existsb (String.eqb key) object_prototype_members
      then JsProtoMember key else JsUndefined
  end.

(** ** [enhanceResponse] (messages.ts, lines 23-70) *)

Definition enhancedResponses : list (string * string) :=
  [ ("Sorry, I could not generate a response.",
     "I apologize, but I'm having trouble generating a response right now. This could be due to a temporary issue with my knowledge base or the complexity of your question. Could you please try rephrasing your question or ask something more specific? I'm here to help and want to provide you with the best possible assistance.");
    ("I couldn't retrieve relevant information at the moment. How else can I assist you?",
     "I'm currently unable to access my extended knowledge base, but I'd be happy to help you with general questions or discuss topics based on my core knowledge. What would you like to know? I can assist with various subjects including technology, programming, general knowledge, and more.");
    ("I couldn't access my extended knowledge at the moment. The embedding service is not configured.",
     "I'm currently operating with limited access to my knowledge base, but I can still help you with many topics. What specific question do you have? I can provide general information, help with programming questions, explain concepts, or assist with various other subjects.");
    ("I received your message.",
     "Thank you for your message! I'd be happy to help you with any questions or topics you'd like to discuss. Could you please provide more details about what you'd like to know? The more specific you are, the better I can assist you.") ].

Definition greeting_reply : string :=
  "Hello! I'm here to help you with any questions or topics you'd like to explore. Whether you need help with programming, want to learn about new technologies, discuss ideas, or just have a conversation, I'm ready to assist. What would you like to talk about today?".

Definition help_reply : string :=
  "I'm here to help! I can assist you with a wide range of topics including programming, technology, general knowledge, problem-solving, and more. Just let me know what specific area you need help with, and I'll do my best to provide detailed, helpful information. What can I help you with today?".

Definition thanks_reply : string :=
  "You're very welcome! I'm glad I could help. If you have any more questions or need assistance with anything else, feel free to ask. I'm here to help with programming, technology, general knowledge, or any other topics you'd like to explore. What else can I assist you with?".

Definition farewell_reply : string :=
  "Goodbye! It was great chatting with you. Feel free to return anytime if you have more questions or need assistance. I'm always here to help with programming, technology, learning, or any other topics you're interested in. Have a wonderful day!".

Definition generic_suffix : string :=
  " I'd be happy to provide more detailed information or help you explore this topic further. Could you please let me know what specific aspects you'd like me to elaborate on? I can provide examples, explanations, or discuss related concepts to give you a more comprehensive understanding.".

Definition enhanceResponse (originalResponse userQuery : string) : JsValue :=
  if Nat.ltb 200 (String.length originalResponse) then JsStr originalResponse
  else
    let hit := object_get enhancedResponses originalResponse in
    if js_truthy hit then hit
    else
      let queryLower := toLowerCase userQuery in
      if includes queryLower "hello" || includes queryLower "hi" then JsStr greeting_reply
      else if includes queryLower "help" || includes queryLower "assist" then JsStr help_reply
      else if includes queryLower "thanks" || includes queryLower "thank you" then JsStr thanks_reply
      else if includes queryLower "bye" || includes queryLower "goodbye" then JsStr farewell_reply
      else JsStr (originalResponse ++ generic_suffix).

(** ** Decimal rendering of a number ([String(n)] / template literals) *)

Fixpoint dec_aux (fuel : nat) (n : N) (acc : string) : string :=
  match fuel with
  | O => acc
  | S f =>
      let acc' := String (ascii_of_N (48 + N.modulo n 10)) acc in
      if (n <? 10)%N then acc' else dec_aux f (N.div n 10) acc'
  end.

Definition N_to_dec (n : N) : string := dec_aux (S (N.size_nat n)) n "".

(** ** Errors and HTTP outcomes *)

Inductive JsError : Type :=
| ValidationError (msg : string)
| NotFoundError (msg : string)
| UnauthorizedError (msg : string)
| TypeError (msg : string)
| AxiosError (status : option N) (msg : string)
| SyntaxError (msg : string).

Definition Exc (A : Type) : Type := (JsError + A)%type.

(** What the HTTP exchange with the embedding server produced: a response
    with a status code and a body, a transport failure, or a timeout. *)
Inductive HttpResult (A : Type) : Type :=
| HttpResponse (status : N) (data : A)
| HttpNetworkError (msg : string)
| HttpTimeout.
Arguments HttpResponse {A}.
Arguments HttpNetworkError {A}.
Arguments HttpTimeout {A}.

(** [axios.post]: with the default [validateStatus] it resolves with the
    body on a 2xx status and rejects with an [AxiosError] otherwise. *)
Definition axios_post {A} (r : HttpResult A) : Exc A :=
  match r with
  | HttpResponse st d =>
      if (200 <=? st)%N && (st <? 300)%N then inr d
      else inl (AxiosError (Some st) ("Request failed with status code " ++ N_to_dec st))
  | HttpNetworkError m => inl (AxiosError None m)
  | HttpTimeout => inl (AxiosError None "timeout exceeded")
  end.

(** A failed exchange: a non-2xx status, a transport error or a timeout. *)
Definition http_failed {A} (r : HttpResult A) : Prop :=
  match r with
  | HttpResponse st _ => ~ ((200 <= st)%N /\ (st < 300)%N)
  | _ => True
  end.

(** ** Records of the embedding server's wire format

    [EmbeddingResponse] (embeddingService.ts, lines 10-14); its [vector]
    field is passed through untouched by the code and is left out.
    [RAGResponse] (lines 16-24); [matches] is likewise left out.  A body
    of the HTTP response is [None] when it is not an object (e.g. [null]). *)

Record EmbeddingResponse : Type := mkEmbeddingResponse {
  emb_status : string;
  emb_error : option string
}.

Record RAGResponse : Type := mkRAGResponse {
  answer : option string;
  context : option string;
  responseId : option string
}.

Record EmbedRequest : Type := mkEmbedRequest {
  embed_url : string;
  embed_userId : string;
  embed_threadId : option N;
  embed_content : string;
  embed_messageId : option N
}.

Record RagRequest : Type := mkRagRequest {
  rag_url : string;
  rag_userId : string;
  rag_threadId : option N;
  rag_query : string
}.

(** ** The EmbeddingService object (lines 26-46) *)

Record EmbeddingService : Type := mkService {
  apiUrl : option string;
  enabled : bool
}.

Definition opt_truthy (o : option string) : bool :=
  match o with Some s => str_truthy s | None => false end.

(** [constructor(apiUrl?)]: [apiUrl || process.env.EMBEDDING_API_URL]. *)
Definition newEmbeddingService (arg env_url : option string) : EmbeddingService :=
  let u := if opt_truthy arg then arg else env_url in
  mkService u (opt_truthy u).

Definition url_of (svc : EmbeddingService) : string :=
  match apiUrl svc with Some u => u | None => "undefined" end.

(** ** Persistent store *)

Record Thread : Type := mkThread {
  thread_id : N;
  thread_userId : string;
  title : string;
  isActive : bool;
  createdBy : string;
  thread_createdAt : N;
  thread_updatedAt : N
}.

Record Message : Type := mkMessage {
  message_id : N;
  message_threadId : N;
  msg_content : string;
  msg_sender : string;
  msg_files : list string;
  message_createdAt : N;
  message_updatedAt : N
}.

(** [next_id] is the next fresh object id; [now] is the clock read by
    [new Date()] and by the timestamps of the models. *)
Record DB : Type := mkDB {
  threads : list Thread;
  messages : list Message;
  next_id : N;
  now : N
}.

(** Calls the code makes to its collaborators, recorded in order. *)
Inductive Event : Type :=
| EvEmbed (req : EmbedRequest)
| EvRag (req : RagRequest)
| EvEnhance (candidate query : string)
| EvThreadCreate (id : N)
| EvThreadTouch (id : N)
| EvMessageSave (id : N)
| EvMessageInsertMany (n : nat)
| EvMessageFind (threadId : N).

Record World : Type := mkWorld {
  db : DB;
  trace : list Event
}.

(** The process-wide configuration: the [embeddingService] singleton and
    the behaviour of the embedding server on each request. *)
Record Env : Type := mkEnv {
  svc : EmbeddingService;
  embed_backend : EmbedRequest -> HttpResult (option EmbeddingResponse);
  rag_backend : RagRequest -> HttpResult (option RAGResponse)
}.

(** ** The effect monad of the async handlers: reading the configuration,
    threading the world, and exceptions (a rejected promise keeps the
    effects performed before it). *)

Definition M (A : Type) : Type := Env -> World -> Exc A * World.

Definition ret {A} (a : A) : M A := fun _ w => (inr a, w).

Definition bind {A B} (m : M A) (f : A -> M B) : M B :=
  fun env w =>
    match m env w with
    | (inr a, w') => f a env w'
    | (inl e, w') => (inl e, w')
    end.

Notation "'let*' x ':=' m 'in' k" := (bind m (fun x => k))
  (at level 200, x name, m at level 100, k at level 200).

Definition throw {A} (e : JsError) : M A := fun _ w => (inl e, w).

Definition try_catch {A} (m : M A) (h : JsError -> M A) : M A :=
  fun env w =>
    match m env w with
    | (inl e, w') => h e env w'
    | ok => ok
    end.

Definition ask_svc : M EmbeddingService := fun env w => (inr (svc env), w).

Definition emit (ev : Event) : M unit :=
  fun _ w => (inr tt, mkWorld (db w) (trace w ++ [ev])).

Definition get_db : M DB := fun _ w => (inr (db w), w).

Definition put_db (d : DB) : M unit := fun _ w => (inr tt, mkWorld d (trace w)).

Definition post_embed (req : EmbedRequest) : M (option EmbeddingResponse) :=
  fun env w =>
    (axios_post (embed_backend env req), mkWorld (db w) (trace w ++ [EvEmbed req])).

Definition post_rag (req : RagRequest) : M (option RAGResponse) :=
  fun env w =>
    (axios_post (rag_backend env req), mkWorld (db w) (trace w ++ [EvRag req])).

(** ** [createEmbedding] (embeddingService.ts, lines 56-116) *)

Definition disabled_error : string :=
  "Embedding Service is disabled: No API URL available".

Definition status_or_unknown (st : option N) : string :=
  match st with Some n => N_to_dec n | None => "unknown" end.

Definition createEmbedding (userId content : string) (threadId messageId : option N)
    : M (option EmbeddingResponse) :=
  let* s := ask_svc in
  if negb (enabled s) then
    ret (Some (mkEmbeddingResponse "error" (Some disabled_error)))
  else
    try_catch
      (post_embed (mkEmbedRequest (url_of s ++ "/embed") userId threadId content messageId))
      (fun e =>
         match e with
         | AxiosError st m =>
             ret (Some (mkEmbeddingResponse "error"
                          (Some ("API error: " ++ status_or_unknown st ++ " - " ++ m))))
         | _ => ret (Some (mkEmbeddingResponse "error" (Some "Failed to create embedding")))
         end).

(** ** [getRAGResponse] (embeddingService.ts, lines 125-188) *)

Definition degraded_answer : string :=
  "I'm currently having trouble accessing my extended knowledge base, but I'd be happy to help you with general questions or discuss topics based on my core knowledge. What would you like to know? I can assist with various subjects including technology, programming, general knowledge, and more. Just let me know what you're interested in, and I'll provide the best possible response with the information available to me.".

Definition disabled_context : string := "Embedding Service disabled: No API URL available".

Definition error_context : string := "Error retrieving context".

Definition getRAGResponse (userId query : string) (threadId : option N)
    : M (option RAGResponse) :=
  let* s := ask_svc in
  if negb (enabled s) then
    ret (Some (mkRAGResponse (Some degraded_answer) (Some disabled_context) None))
  else
    try_catch
      (post_rag (mkRagRequest (url_of s ++ "/rag-generate") userId threadId query))
      (fun _ => ret (Some (mkRAGResponse (Some degraded_answer) (Some error_context) None))).

(** ** Object ids in requests

    A [threadId] taken from a request body is either the text of a valid
    ObjectId, modelled by the id it denotes, or some other string, for
    which [mongoose.Types.ObjectId.isValid] is false. *)

Inductive IdArg : Type :=
| IdOf (n : N)
| IdText (s : string).

Definition id_truthy (a : option IdArg) : bool :=
  match a with
  | None => false
  | Some (IdOf _) => true
  | Some (IdText s) => str_truthy s
  end.

Definition isValidObjectId (a : option IdArg) : bool :=
  match a with Some (IdOf _) => true | _ => false end.

(** The id denoted by a truthy, valid [threadId]; [None] when it is falsy. *)
Definition id_value (a : option IdArg) : option N :=
  match a with Some (IdOf n) => Some n | _ => None end.

(** ** Persistence operations (mongoose models [Thread] and [Message]) *)

(** [findOne(filter).sort({ updatedAt: -1 })]: the matching document with
    the largest [updatedAt], the first in store order on ties. *)
Fixpoint most_recent (p : Thread -> bool) (ts : list Thread) : option Thread :=
  match ts with
  | [] => None
  | t :: ts' =>
      let r := most_recent p ts' in
      if p t then
        match r with
        | Some t' => if (thread_updatedAt t <? thread_updatedAt t')%N then Some t' else Some t
        | None => Some t
        end
      else r
  end.

Definition active_of (userId : string) (t : Thread) : bool :=
  String.eqb (thread_userId t) userId && isActive t.

Definition thread_findOne_active (userId : string) : M (option Thread) :=
  let* d := get_db in ret (most_recent (active_of userId) (threads d)).

Definition thread_findById (id : N) : M (option Thread) :=
  let* d := get_db in ret (find (fun t => (thread_id t =? id)%N) (threads d)).

Definition thread_create (userId title createdBy : string) (active : bool) : M Thread :=
  let* d := get_db in
  let t := mkThread (next_id d) userId title active createdBy (now d) (now d) in
  let* _ := put_db (mkDB (threads d ++ [t]) (messages d) (N.succ (next_id d)) (N.succ (now d))) in
  let* _ := emit (EvThreadCreate (thread_id t)) in
  ret t.

(** [findByIdAndUpdate(id, { updatedAt: new Date() })] *)
Definition thread_touch (id : N) : M unit :=
  let* d := get_db in
  let upd t := if (thread_id t =? id)%N
               then mkThread (thread_id t) (thread_userId t) (title t) (isActive t)
                      (createdBy t) (thread_createdAt t) (now d)
               else t in
  let* _ := put_db (mkDB (map upd (threads d)) (messages d) (next_id d) (N.succ (now d))) in
  emit (EvThreadTouch id).

(** [new Message({...}).save()] *)
Definition message_save (threadId : N) (content sender : string) (files : list string)
    : M Message :=
  let* d := get_db in
  let m := mkMessage (next_id d) threadId content sender files (now d) (now d) in
  let* _ := put_db (mkDB (threads d) (messages d ++ [m]) (N.succ (next_id d)) (N.succ (now d))) in
  let* _ := emit (EvMessageSave (message_id m)) in
  ret m.

(** The documents built by [insertMany], in input order. *)
Fixpoint build_docs (id t : N) (docs : list (N * string * string)) : list Message :=
  match docs with
  | [] => []
  | (tid, c, s) :: docs' => mkMessage id tid c s [] t t :: build_docs (N.succ id) t docs'
  end.

(** [Message.insertMany(docs)]: one bulk write of all the documents. *)
Definition message_insertMany (docs : list (N * string * string)) : M (list Message) :=
  let* d := get_db in
  let created := build_docs (next_id d) (now d) docs in
  let* _ := put_db (mkDB (threads d) (messages d ++ created)
                         (next_id d + N.of_nat (length docs)) (N.succ (now d))) in
  let* _ := emit (EvMessageInsertMany (length docs)) in
  ret created.

(** ** Thread resolution (messages.ts, lines 110-147) *)

Definition thread_title (content : string) : string :=
  substring0 50 content ++ (if Nat.ltb 50 (String.length content) then "..." else "").

Definition resolveThread (userId content : string) (threadId : option N) : M N :=
  match threadId with
  | None =>
      let* found := thread_findOne_active userId in
      match found with
      | Some thread => ret (thread_id thread)
      | None =>
          let* thread := thread_create userId (thread_title content) userId true in
          ret (thread_id thread)
      end
  | Some id =>
      let* found := thread_findById id in
      match found with
      | None => throw (NotFoundError "Thread not found")
      | Some thread => ret (thread_id thread)
      end
  end.

(** ** Shared steps of the turn handlers *)

(** Lines 162-180 (and 227-245, 552-564): index a message when the
    service is enabled; the call and the read of [.status] sit in a
    [try] whose [catch] only logs. *)
Definition index_message (userId content : string) (threadId messageId : N) : M unit :=
  let* s := ask_svc in
  if enabled s then
    try_catch
      (let* r := createEmbedding userId content (Some threadId) (Some messageId) in
       match r with
       | None => throw (TypeError "Cannot read properties of null (reading 'status')")
       | Some _ => ret tt
       end)
      (fun _ => ret tt)
  else ret tt.

(** Lines 184-206: [ragAnswer], [ragContext], [responseId], each
    defaulting to [''], all left at [''] when the [try] fails. *)
Definition fetch_rag (userId query : string) (threadId : option N) : M (string * string * string) :=
  try_catch
    (let* r := getRAGResponse userId query threadId in
     match r with
     | None => throw (TypeError "Cannot read properties of null (reading 'answer')")
     | Some d => ret (opt_or (answer d) "", opt_or (context d) "", opt_or (responseId d) "")
     end)
    (fun _ => ret ("", "", "")).

Definition fallback_answer : string := "Sorry, I could not generate a response.".

(** Lines 213-214: [enhanceResponse(...)], then the log line that calls
    [enhancedResponse.substring(0, 100)], which throws a [TypeError] on
    anything but a string. *)
Definition enhance_step (candidate query : string) : M string :=
  let* _ := emit (EvEnhance candidate query) in
  match enhanceResponse candidate query with
  | JsStr s => ret s
  | _ => throw (TypeError "enhancedResponse.substring is not a function")
  end.

(** ** [POST /api/messages] (messages.ts, lines 81-273) *)

Record TurnRequest : Type := mkTurnRequest {
  req_threadId : option IdArg;
  req_content : string;
  req_userId : string;
  req_files : option (list string)
}.

Record TurnResponse : Type := mkTurnResponse {
  resp_answer : string;
  resp_context : string;
  resp_responseId : string;
  resp_threadId : N;
  resp_messageId : N
}.

Definition createTurn (req : TurnRequest) : M TurnResponse :=
  let threadId := req_threadId req in
  let content := req_content req in
  let userId := req_userId req in
  if negb (str_truthy content) then throw (ValidationError "content is required")
  else if negb (str_truthy userId) then throw (ValidationError "userId is required")
  else if id_truthy threadId && negb (isValidObjectId threadId) then
    throw (ValidationError "Invalid thread ID format")
  else
    let* actualThreadId := resolveThread userId content (id_value threadId) in
    let files := match req_files req with Some f => f | None => [] end in
    let* newMessage := message_save actualThreadId content userId files in
    let* _ := index_message userId content actualThreadId (message_id newMessage) in
    let* rag := fetch_rag userId content None in
    let '(ragAnswer, ragContext, responseId) := rag in
    let aiResponseContent := str_or ragAnswer fallback_answer in
    let* enhancedResponse := enhance_step aiResponseContent content in
    let* aiMessage := message_save actualThreadId enhancedResponse "system" [] in
    let* _ := index_message userId enhancedResponse actualThreadId (message_id aiMessage) in
    let* _ := thread_touch actualThreadId in
    ret (mkTurnResponse enhancedResponse ragContext responseId actualThreadId
                        (message_id newMessage)).

(** ** [POST /api/messages/batch] (messages.ts, lines 463-511) *)

Record BatchItem : Type := mkBatchItem {
  item_content : string;
  item_sender : option string
}.

(** The formatted record sent back for each message. *)
Record MessageView : Type := mkMessageView {
  view_id : N;
  view_threadId : N;
  view_content : string;
  view_sender : string;
  view_createdAt : N;
  view_updatedAt : N
}.

Definition view_of (m : Message) : MessageView :=
  mkMessageView (message_id m) (message_threadId m) (msg_content m) (msg_sender m)
                (message_createdAt m) (message_updatedAt m).

(** [msg.sender || userId || 'system'] *)
Definition batch_sender (sender userId : option string) : string :=
  if opt_truthy sender then opt_or sender "system"
  else if opt_truthy userId then opt_or userId "system"
  else "system".

(** [messages] is [None] when it is not an array. *)
Definition batchCreateMessages (threadId : option IdArg) (messages : option (list BatchItem))
    (userId : option string) : M (list MessageView) :=
  let non_empty := match messages with Some (_ :: _) => true | _ => false end in
  if negb (id_truthy threadId) || negb non_empty then
    throw (ValidationError "threadId and non-empty messages array are required")
  else if negb (isValidObjectId threadId) then
    throw (ValidationError "Invalid thread ID format")
  else
    match id_value threadId, messages with
    | Some tid, Some msgs =>
        let* found := thread_findById tid in
        match found with
        | None => throw (NotFoundError "Thread not found")
        | Some thread =>
            if opt_truthy userId && negb (String.eqb (thread_userId thread) (opt_or userId ""))
            then throw (UnauthorizedError "You do not have permission to add messages to this thread")
            else
              let messagesToInsert :=
                map (fun msg => (tid, item_content msg, batch_sender (item_sender msg) userId)) msgs in
              let* createdMessages := message_insertMany messagesToInsert in
              ret (map view_of createdMessages)
        end
    | _, _ => throw (ValidationError "threadId and non-empty messages array are required")
    end.

(** ** [POST /api/messages/generate] (messages.ts, lines 524-624) *)

Record GenerateResponse : Type := mkGenerateResponse {
  gen_answer : string;
  gen_context : string;
  gen_responseId : string
}.

Definition generateOnly (threadId : option IdArg) (userMessage : string) : M GenerateResponse :=
  if negb (id_truthy threadId) || negb (str_truthy userMessage) then
    throw (ValidationError "threadId and userMessage are required fields")
  else if negb (isValidObjectId threadId) then
    throw (ValidationError "Invalid thread ID format")
  else
    match id_value threadId with
    | None => throw (ValidationError "Invalid thread ID format")
    | Some tid =>
        let* found := thread_findById tid in
        match found with
        | None => throw (NotFoundError "Thread not found")
        | Some thread =>
            let owner := thread_userId thread in
            let* userMessageDoc := message_save tid userMessage (str_or owner "user") [] in
            let* _ := index_message owner userMessage tid (message_id userMessageDoc) in
            let* rag := fetch_rag owner userMessage (Some tid) in
            let '(ragAnswer, ragContext, responseId) := rag in
            let aiResponseContent := str_or ragAnswer fallback_answer in
            let* enhancedResponse := enhance_step aiResponseContent userMessage in
            let* aiMessageDoc := message_save tid enhancedResponse "system" [] in
            let* _ := index_message owner enhancedResponse tid (message_id aiMessageDoc) in
            ret (mkGenerateResponse enhancedResponse
                   (str_or ragContext "RAG context not available") responseId)
        end
    end.

(** ** [getRelevantMemory] (openai.ts, [src/unnamed/part_003], lines 183-208) *)

Definition triggers : list string :=
  ["what did i say"; "earlier"; "before"; "previous"; "remind me"; "last time"].

Definition stop_words : list string :=
  ["what"; "did"; "i"; "say"; "about"; "the"; "last"; "time"; "you"].

(** The ASCII characters matched by [\s]. *)
Definition is_ws (c : ascii) : bool :=
  let n := nat_of_ascii c in
  Nat.eqb n 32 || (Nat.leb 9 n && Nat.leb n 13).

Fixpoint split_ws_aux (s : string) (cur : list ascii) (in_ws : bool) : list string :=
  match s with
  | EmptyString => [string_of_list_ascii (rev cur)]
  | String c s' =>
      if is_ws c then
        if in_ws then split_ws_aux s' cur true
        else string_of_list_ascii (rev cur) :: split_ws_aux s' [] true
      else split_ws_aux s' (c :: cur) false
  end.

(** [s.split(/\s+/)]: a leading or trailing run of white space yields an
    empty first or last piece, and [''] splits to [['']]. *)
Definition split_ws (s : string) : list string := split_ws_aux s [] false.

(** [arr.pop()] read as a value: the last element, if any. *)
Definition last_opt (l : list string) : option string :=
  match rev l with [] => None | x :: _ => Some x end.

(** Insertion by [createdAt], newest first, stable. *)
Fixpoint insert_newest (m : Message) (l : list Message) : list Message :=
  match l with
  | [] => [m]
  | m' :: l' =>
      if (message_createdAt m' <? message_createdAt m)%N then m :: l
      else m' :: insert_newest m l'
  end.

Definition sort_newest (l : list Message) : list Message :=
  fold_right insert_newest [] l.

(** [Message.find({threadId, sender: {$ne: 'system'}, content: {$regex}})
    .sort({createdAt: -1}).limit(3)] *)
Definition message_find_memory (threadId : N) (matches : string -> bool) : M (list Message) :=
  let* d := get_db in
  let* _ := emit (EvMessageFind threadId) in
  let hits := filter (fun m => (message_threadId m =? threadId)%N
                               && negb (String.eqb (msg_sender m) "system")
                               && matches (msg_content m)) (messages d) in
  ret (firstn 3 (sort_newest hits)).

(** The bullet U+2022 followed by a space, as its UTF-8 bytes. *)
Definition bullet : string :=
  String (ascii_of_nat 226) (String (ascii_of_nat 128) (String (ascii_of_nat 162) " ")).

(** [re_compile] is [new RegExp(pattern, 'i')]: [None] when the pattern is
    not a valid regular expression (a [SyntaxError], raised before the
    [try]), otherwise its [test] function. *)
Definition getRelevantMemory (re_compile : string -> option (string -> bool))
    (threadId : N) (userMessage : string) : M (list string) :=
  let queryLower := toLowerCase userMessage in
  let shouldRecall := existsb (includes queryLower) triggers in
  if negb shouldRecall then ret []
  else
    let words := split_ws queryLower in
    let keywords := filter (fun w => negb (existsb (String.eqb w) stop_words)) words in
    let lastKeyword := match last_opt keywords with Some k => str_or k "" | None => "" end in
    if negb (str_truthy lastKeyword) then ret []
    else
      match re_compile lastKeyword with
      | None => throw (SyntaxError "Invalid regular expression")
      | Some test =>
          try_catch
            (let* pastMessages := message_find_memory threadId test in
             ret (map (fun m => bullet ++ msg_content m) pastMessages))
            (fun _ => ret [])
      end.

(** ** Message routes by id (messages.ts, lines 286-450)

    The three routes look the message up with [findById], check the
    ownership of its thread only when a [userId] is given, then read,
    update or delete it.  [withDatabase] is the identity once connected
    (see [withDatabase] below for the connection itself). *)

Definition message_findById (id : N) : M (option Message) :=
  let* d := get_db in ret (find (fun m => (message_id m =? id)%N) (messages d)).

(** Lines 304-314 (and 364-374, 423-433): [if (userId) { thread = findById;
    if (!thread) NotFound; if (thread.userId !== userId) Unauthorized }]. *)
Definition verify_owner (userId : option string) (threadId : N) (denied : string) : M unit :=
  if opt_truthy userId then
    let* found := thread_findById threadId in
    match found with
    | None => throw (NotFoundError "Thread not found")
    | Some thread =>
        if negb (String.eqb (thread_userId thread) (opt_or userId ""))
        then throw (UnauthorizedError denied)
        else ret tt
    end
  else ret tt.

(** [GET /api/messages/:id] *)
Definition getMessage (id : IdArg) (userId : option string) : M MessageView :=
  if negb (isValidObjectId (Some id)) then throw (ValidationError "Invalid message ID format")
  else
    match id with
    | IdText _ => throw (ValidationError "Invalid message ID format")
    | IdOf mid =>
        let* msg := message_findById mid in
        match msg with
        | None => throw (NotFoundError "Message not found")
        | Some msg =>
            let* _ := verify_owner userId (message_threadId msg)
                        "You do not have permission to access this message" in
            ret (view_of msg)
        end
    end.

(** The first stored document with the given id, updated by [f]
    ([updateOne({_id})] touches one document). *)
Fixpoint update_first (id : N) (f : Message -> Message) (ms : list Message) : list Message :=
  match ms with
  | [] => []
  | m :: ms' => if (message_id m =? id)%N then f m :: ms' else m :: update_first id f ms'
  end.

Definition set_content (content : string) (t : N) (m : Message) : Message :=
  mkMessage (message_id m) (message_threadId m) content (msg_sender m) (msg_files m)
            (message_createdAt m) t.

(** [message.content = content; await message.save()]: assigning the
    value a path already holds does not mark it modified, and [save] of
    an unmodified document writes nothing (the timestamps plugin sets
    [updatedAt] only on a new or modified document).  Otherwise the
    changed path and [updatedAt] are written. *)
Definition message_save_content (message : Message) (content : string) : M Message :=
  if String.eqb (msg_content message) content then ret message
  else
    let* d := get_db in
    let* _ := put_db (mkDB (threads d)
                           (update_first (message_id message) (set_content content (now d)) (messages d))
                           (next_id d) (N.succ (now d))) in
    ret (set_content content (now d) message).

(** [PUT /api/messages/:id] *)
Definition updateMessage (id : IdArg) (content : string) (userId : option string) : M MessageView :=
  if negb (str_truthy content) then throw (ValidationError "content is required")
  else if negb (isValidObjectId (Some id)) then throw (ValidationError "Invalid message ID format")
  else
    match id with
    | IdText _ => throw (ValidationError "Invalid message ID format")
    | IdOf mid =>
        let* found := message_findById mid in
        match found with
        | None => throw (NotFoundError "Message not found")
        | Some message =>
            let* _ := verify_owner userId (message_threadId message)
                        "You do not have permission to update this message" in
            let* saved := message_save_content message content in
            ret (view_of saved)
        end
    end.

(** [findByIdAndDelete(id)]: the first document with that id is removed. *)
Fixpoint delete_first (id : N) (ms : list Message) : list Message :=
  match ms with
  | [] => []
  | m :: ms' => if (message_id m =? id)%N then ms' else m :: delete_first id ms'
  end.

Definition message_findByIdAndDelete (id : N) : M unit :=
  let* d := get_db in
  put_db (mkDB (threads d) (delete_first id (messages d)) (next_id d) (now d)).

Record DeleteResult : Type := mkDeleteResult {
  del_id : N;
  del_threadId : N;
  deleted : bool
}.

(** [DELETE /api/messages/:id] *)
Definition deleteMessage (id : IdArg) (userId : option string) : M DeleteResult :=
  if negb (isValidObjectId (Some id)) then throw (ValidationError "Invalid message ID format")
  else
    match id with
    | IdText _ => throw (ValidationError "Invalid message ID format")
    | IdOf mid =>
        let* found := message_findById mid in
        match found with
        | None => throw (NotFoundError "Message not found")
        | Some message =>
            let* _ := verify_owner userId (message_threadId message)
                        "You do not have permission to delete this message" in
            let threadId := message_threadId message in
            let* _ := message_findByIdAndDelete mid in
            ret (mkDeleteResult mid threadId true)
        end
    end.

(** ** More string primitives *)

(** A newline. *)
Definition nl : string := String (ascii_of_nat 10) EmptyString.

(** [Array.prototype.join(sep)] on strings. *)
Fixpoint join (sep : string) (l : list string) : string :=
  match l with
  | [] => ""
  | [x] => x
  | x :: l' => x ++ sep ++ join sep l'
  end.

Fixpoint drop_ws (l : list ascii) : list ascii :=
  match l with
  | [] => []
  | c :: l' => if is_ws c then drop_ws l' else l
  end.

(** [String.prototype.trim] (ASCII white space and line terminators). *)
Definition trim (s : string) : string :=
  string_of_list_ascii (rev (drop_ws (rev (drop_ws (list_ascii_of_string s))))).

(** [s.split(sep)] for a one-character separator. *)
Fixpoint split_char_aux (sep : ascii) (s : string) (cur : list ascii) : list string :=
  match s with
  | EmptyString => [string_of_list_ascii (rev cur)]
  | String c s' =>
      if Ascii.eqb c sep then string_of_list_ascii (rev cur) :: split_char_aux sep s' []
      else split_char_aux sep s' (c :: cur)
  end.

Definition split_char (sep : ascii) (s : string) : list string := split_char_aux sep s [].

(** ** [isTrivialMessage], [shouldUseSemanticSearch] and
    [enhancePromptWithRAG] (embeddingService.ts, lines 198-272) *)

Fixpoint all_char (c : ascii) (s : string) : bool :=
  match s with
  | EmptyString => true
  | String c' s' => Ascii.eqb c c' && all_char c s'
  end.

(** [/^<stem><c>+$/]: [stem] followed by one or more [c]. *)
Definition plus_pat (stem : string) (c : ascii) (s : string) : bool :=
  String.prefix stem s &&
  (let rest := String.substring (String.length stem) (String.length s - String.length stem) s in
   str_truthy rest && all_char c rest).

(** [/^<base>\??$/] *)
Definition opt_q_pat (base s : string) : bool :=
  String.eqb s base || String.eqb s (base ++ "?").

(** The [trivialPatterns], in order.  The [i] flag is immaterial: they
    are tested against lower-cased text, and all of them are lower case. *)
Definition trivialPatterns : list (string -> bool) :=
  [ plus_pat "h" "i"%char; plus_pat "hell" "o"%char; plus_pat "he" "y"%char; plus_pat "y" "o"%char;
    plus_pat "su" "p"%char; opt_q_pat "how are you"; opt_q_pat "what's up";
    plus_pat "o" "k"%char; plus_pat "oka" "y"%char; plus_pat "tes" "t"%char; String.eqb "ping" ].

Definition isTrivialMessage (content : string) : bool :=
  let trimmed := toLowerCase (trim content) in
  existsb (fun pattern => pattern trimmed) trivialPatterns.

Definition questionIndicators : list string :=
  [ "?"; "what"; "how"; "why"; "when"; "where"; "who"; "which"; "can you"; "could you";
    "tell me"; "explain"; "describe"; "find"; "search"; "help me with" ].

Definition shouldUseSemanticSearch (content : string) : bool :=
  if Nat.ltb (String.length (trim content)) 10 then false
  else if isTrivialMessage content then false
  else existsb (fun indicator => includes (toLowerCase content) indicator) questionIndicators.

Definition rag_prompt (relevantContext query : string) : string :=
  join nl [ "### Relevant Previous Information:"; relevantContext;
            nl ++ "### Current User Query:"; query ].

Definition enhancePromptWithRAG (userId query : string) (threadId : N) : M string :=
  let* s := ask_svc in
  if negb (enabled s) || negb (shouldUseSemanticSearch query) then ret query
  else
    try_catch
      (let* ragResponse := getRAGResponse userId query (Some threadId) in
       match ragResponse with
       | None => throw (TypeError "Cannot read properties of null (reading 'context')")
       | Some r => ret (rag_prompt (opt_or (context r) "") query)
       end)
      (fun _ => ret query).

(** ** [OpenAIService] (openai.ts, [src/unnamed/part_003], lines 19-181) *)

(** The fields the methods read: [useMockResponses], whether [this.openai]
    is set, and [model]. *)
Record OpenAIService : Type := mkOpenAIService {
  useMockResponses : bool;
  has_client : bool;
  model : string
}.

(** [constructor(apiKey?)]: [init_ok] says whether [new OpenAI(...)]
    returned (it may throw). *)
Definition newOpenAIService (apiKey env_model : option string) (init_ok : bool) : OpenAIService :=
  let model := opt_or env_model "gpt-3.5-turbo" in
  if opt_truthy apiKey then
    if init_ok then mkOpenAIService false true model else mkOpenAIService true false model
  else mkOpenAIService true false model.
Definition system_prompt : string :=
  "You are a helpful and friendly AI assistant. Provide detailed, comprehensive responses that thoroughly address user questions. When explaining concepts, include examples, context, and practical applications. Aim to be informative and educational while maintaining a conversational tone.".

Definition mock_project_reply : string :=
  "Yes, I remember you made an LCA-based IoT dashboard project! That's a fascinating combination of Life Cycle Assessment and Internet of Things technology. IoT dashboards are excellent tools for real-time monitoring and data visualization, and integrating LCA principles adds a valuable sustainability dimension. Would you like to discuss the technical implementation, the challenges you faced, or explore how you could expand this project further? I'd be interested in hearing about the sensors you used, the data collection methods, and how you implemented the LCA calculations in your dashboard.".

Definition mock_greeting_reply : string :=
  "Hello! I'm here to help you with any questions or topics you'd like to explore. Whether you need assistance with programming, want to learn about new technologies, discuss ideas, or just have a conversation, I'm ready to assist. What would you like to talk about today? I can help with technical questions, explain complex concepts, provide coding examples, or discuss various subjects. Just let me know what interests you!".

Definition mock_help_reply : string :=
  "I'm here to help! I can assist you with a wide range of topics including programming, technology, general knowledge, problem-solving, and more. Just let me know what specific area you need help with, and I'll do my best to provide detailed, helpful information. Whether it's debugging code, explaining concepts, discussing technology trends, or helping with learning, I'm ready to support you. What can I help you with today?".

Definition mock_farewell_reply : string :=
  "Goodbye! It was great chatting with you. Feel free to return anytime if you have more questions or need assistance. I'm always here to help with programming, technology, learning, or any other topics you're interested in. Have a wonderful day, and don't hesitate to reach out if you need any help in the future!".

Definition mock_thanks_reply : string :=
  "You're very welcome! I'm glad I could help. If you have any more questions or need assistance with anything else, feel free to ask. I'm here to help with programming, technology, general knowledge, or any other topics you'd like to explore. What else can I assist you with? I enjoy our conversations and am always ready to provide detailed, helpful responses to your questions.".

Definition mock_details_reply : string :=
  "Could you please provide more details so I can better assist you? I'm here to help with a wide variety of topics including programming, technology, general knowledge, and more. The more specific you are about what you'd like to know or discuss, the better I can provide you with relevant, detailed information. What would you like to learn about or get help with?".

Definition mock_default_reply : string :=
  "I received your message and I'm here to help! I can assist you with programming questions, explain technical concepts, discuss various topics, or help you with problem-solving. Could you please let me know what specific area you'd like assistance with? I'm ready to provide detailed, comprehensive responses to help you learn and understand better. What would you like to explore or discuss?".

(** [generateMockResponse] (lines 158-181) *)
Definition generateMockResponse (userMessage : string) (providedContext : option string) : string :=
  let message := toLowerCase userMessage in
  if opt_truthy providedContext && (includes message "iot" || includes message "project")
  then mock_project_reply
  else if includes message "hello" || includes message "hi" then mock_greeting_reply
  else if includes message "help" then mock_help_reply
  else if includes message "bye" || includes message "goodbye" then mock_farewell_reply
  else if includes message "thanks" || includes message "thank you" then mock_thanks_reply
  else if Nat.ltb (String.length message) 10 then mock_details_reply
  else mock_default_reply.

(** An element of the [context] argument: a stored message or any object
    with optional [userId], [content] and [sender]. *)
Record CtxMessage : Type := mkCtxMessage {
  ctx_userId : option string;
  ctx_content : option string;
  ctx_sender : option string
}.

Record ChatMessage : Type := mkChatMessage {
  role : string;
  chat_content : string
}.

Definition MAX_CONTEXT_LENGTH : nat := 4000.

(** [msg.sender === 'system'] *)
Definition sender_is_system (sender : option string) : bool :=
  match sender with Some s => String.eqb s "system" | None => false end.

(** Lines 111-120: one chat message per context element. *)
Definition chat_of_context (msg : CtxMessage) : ChatMessage :=
  let content := opt_or (ctx_content msg) "" in
  let content := if Nat.ltb MAX_CONTEXT_LENGTH (String.length content)
                 then substring0 MAX_CONTEXT_LENGTH content ++ "... [content truncated]"
                 else content in
  mkChatMessage (if sender_is_system (ctx_sender msg) then "assistant" else "user") content.

(** Line 105: the system message, with the memory context when non-empty. *)
Definition system_content (memoryContext : string) : string :=
  system_prompt ++ (if str_truthy memoryContext then nl ++ nl ++ memoryContext else "").

(** Lines 103-123: the messages sent to the chat completion. *)
Definition build_messages (memoryContext : string) (context : list CtxMessage)
    (enhancedPrompt : string) : list ChatMessage :=
  (mkChatMessage "system" (system_content memoryContext) :: map chat_of_context context)
    ++ [mkChatMessage "user" enhancedPrompt].

(** Lines 91-93 and 98-100. *)
Definition memory_text (memorySnippets : list string) : string :=
  if Nat.ltb 0 (length memorySnippets)
  then "Here are some things the user said previously:" ++ nl ++ join nl memorySnippets
  else "".

(** Lines 61-65: the [userId] of the first context element that has one. *)
Definition context_userId (context : list CtxMessage) : string :=
  match find (fun msg => opt_truthy (ctx_userId msg)) context with
  | Some msg => opt_or (ctx_userId msg) ""
  | None => ""
  end.

Definition from_exc {A} (r : Exc A) : M A := fun _ w => (r, w).

(** [generateResponse] (lines 46-156).  [complete] is
    [openai.chat.completions.create] for the model and the messages: it
    throws, or yields [choices[0]?.message?.content] ([None] when absent
    or null).  [re_compile] is as for [getRelevantMemory].  The embedding
    service of the object is the one of the environment. *)
Definition generateResponse (re_compile : string -> option (string -> bool))
    (complete : string -> list ChatMessage -> Exc (option string))
    (self : OpenAIService) (threadId : N) (userMessage : string)
    (context : list CtxMessage) (providedContext : option string) : M string :=
  try_catch
    (if useMockResponses self || negb (has_client self) then
       ret (generateMockResponse userMessage providedContext)
     else
       let userId := context_userId context in
       let* prompts :=
         (if opt_truthy providedContext then
            ret (userMessage,
                 "Here is important context about the user:" ++ nl ++ opt_or providedContext "")
          else
            let* s := ask_svc in
            if enabled s && str_truthy userId then
              try_catch
                (let* p := enhancePromptWithRAG userId userMessage threadId in ret (p, ""))
                (fun _ =>
                   let* memorySnippets := getRelevantMemory re_compile threadId userMessage in
                   ret (userMessage, memory_text memorySnippets))
            else
              let* memorySnippets := getRelevantMemory re_compile threadId userMessage in
              ret (userMessage, memory_text memorySnippets)) in
       let '(enhancedPrompt, memoryContext) := prompts in
       let messages := build_messages memoryContext context enhancedPrompt in
       let* completion := from_exc (complete (model self) messages) in
       let response := opt_or completion "I could not generate a response." in
       let* s := ask_svc in
       let* _ :=
         (if enabled s && str_truthy userId then
            try_catch
              (if Nat.ltb 20 (String.length response) then
                 let* _ := createEmbedding userId response (Some threadId) None in ret tt
               else ret tt)
              (fun _ => ret tt)
          else ret tt) in
       ret response)
    (fun _ => ret (generateMockResponse userMessage providedContext)).

(** ** Database connection (src/src/server/lib/db.ts, lines 14-64) *)

(** [mongoose.connections[0].readyState] (1 is connected) and the
    module's [isConnected] flag. *)
Record Conn : Type := mkConn {
  readyState : N;
  isConnected : bool
}.

(** What [mongoose.connect(uri, options)] does: connect, reject with an
    [Error] (with its message), or reject with something else. *)
Inductive ConnectOutcome : Type :=
| ConnectOk
| ConnectRejectError (msg : string)
| ConnectRejectOther.

(** [connectToDatabase()]: the left side is the message of the [Error]
    it throws.  The [Error] thrown for a missing URI is inside the [try],
    so its own [catch] wraps it like any other. *)
Definition connectToDatabase (mongodbUri : option string) (connect : string -> ConnectOutcome)
    (c : Conn) : (string + unit) * Conn :=
  if (readyState c =? 1)%N then (inr tt, c)
  else
    let attempt : option string + unit :=
      if negb (opt_truthy mongodbUri) then
        inl (Some "MongoDB URI is not configured. Please set MONGO_URI environment variable.")
      else
        match connect (opt_or mongodbUri "") with
        | ConnectOk => inr tt
        | ConnectRejectError m => inl (Some m)
        | ConnectRejectOther => inl None
        end in
    match attempt with
    | inr _ => (inr tt, mkConn 1 true)
    | inl e =>
        (inl ("Failed to connect to MongoDB: " ++
              match e with Some m => m | None => "Unknown error" end),
         mkConn (readyState c) false)
    end.

(** What [withDatabase] rethrows: the connection's [Error] or the
    operation's own error. *)
Inductive DbFailure : Type :=
| DbConnectFailed (msg : string)
| DbOperationFailed (e : JsError).

(** [withDatabase(operation)]: connect, then run the operation; any error
    is logged and rethrown as it is. *)
Definition withDatabase {A} (mongodbUri : option string) (connect : string -> ConnectOutcome)
    (operation : M A) (c : Conn) (env : Env) (w : World) : (DbFailure + A) * Conn * World :=
  match connectToDatabase mongodbUri connect c with
  | (inl m, c') => (inl (DbConnectFailed m), c', w)
  | (inr _, c') =>
      match operation env w with
      | (inl e, w') => (inl (DbOperationFailed e), c', w')
      | (inr a, w') => (inr a, c', w')
      end
  end.

(** ** The serverless entry point (api/index.ts, lines 26-72) *)

Record HandlerState : Type := mkHandlerState {
  dbConnected : bool;
  conn : Conn
}.

(** [ensureDbConnection()] *)
Definition ensureDbConnection (mongodbUri : option string) (connect : string -> ConnectOutcome)
    (st : HandlerState) : (string + unit) * HandlerState :=
  if dbConnected st then (inr tt, st)
  else
    match connectToDatabase mongodbUri connect (conn st) with
    | (inr _, c') => (inr tt, mkHandlerState true c')
    | (inl m, c') => (inl m, mkHandlerState false c')
    end.

(** How the Express app ends with the request: it answers without calling
    the final callback, or calls it without or with an error. *)
Inductive AppOutcome : Type :=
| AppHandled
| AppNext
| AppNextError (msg : string).

(** What the promise returned by [handler] does: it stays pending,
    resolves, rejects, or the [catch] block answers with a status and the
    error's message. *)
Inductive HandlerOutcome : Type :=
| HandlerPending
| HandlerResolved
| HandlerRejected (msg : string)
| HandlerResponded (status : N) (message : string).

(** [handler(req, res)].  The promise wrapping the app is returned from
    the [try] without [await], so its rejection is not caught there: it
    becomes the rejection of the handler's own promise. *)
Definition handler (mongodbUri : option string) (connect : string -> ConnectOutcome)
    (app : AppOutcome) (st : HandlerState) : HandlerOutcome * HandlerState :=
  match ensureDbConnection mongodbUri connect st with
  | (inl errorMessage, st') =>
      (HandlerResponded (if includes errorMessage "MongoDB" then 503 else 500)%N errorMessage, st')
  | (inr _, st') =>
      (match app with
       | AppHandled => HandlerPending
       | AppNext => HandlerResolved
       | AppNextError e => HandlerRejected e
       end, st')
  end.

(** ** [config.adminEmails] (src/src/server/lib/db.ts, line 108, the
    config module bundled there) *)

Definition adminEmails (ADMIN_EMAILS : option string) : list string :=
  filter str_truthy (split_char ","%char (opt_or ADMIN_EMAILS "")).


(** Lookups of [Message.findById] and [Thread.findById] as plain finds. *)
Definition find_msg (mid : N) (ms : list Message) : option Message :=
  find (fun m => (message_id m =? mid)%N) ms.

Definition find_thread (tid : N) (ts : list Thread) : option Thread :=
  find (fun t => (thread_id t =? tid)%N) ts.

(** Every value a successful run of [m] yields satisfies [P]. *)
Definition yields {A} (P : A -> Prop) (m : M A) : Prop :=
  forall env w a w', m env w = (inr a, w') -> P a.

(** How the serverless [handler]'s promise settles for a given Express app outcome. *)
Definition outcome_of_app (app : AppOutcome) : HandlerOutcome :=
  match app with
  | AppHandled => HandlerPending
  | AppNext => HandlerResolved
  | AppNextError e => HandlerRejected e
  end.


(** * Properties *)

(** ** Facts about the primitives *)

Lemma str_or_truthy (a b : string) :
  str_truthy b = true -> str_truthy (str_or a b) = true.
Proof. unfold str_or. destruct (str_truthy a) eqn:E; auto. Qed.

Lemma str_truthy_nonempty (s : string) : str_truthy s = true <-> s <> "".
Proof. destruct s; simpl; split; congruence. Qed.

Lemma str_truthy_app_r (a b : string) :
  str_truthy b = true -> str_truthy (a ++ b) = true.
Proof. destruct a; simpl; auto. Qed.

(** [enhanceResponse] only ever yields a string or an inherited member
    of [Object.prototype], and a string it yields from a non-empty
    candidate is non-empty. *)
Lemma enhanceResponse_nonempty (c q s : string) :
  str_truthy c = true -> enhanceResponse c q = JsStr s -> str_truthy s = true.
Proof.
  intros Hc H. unfold enhanceResponse in H.
  destruct (Nat.ltb 200 (String.length c)).
  - injection H as <-. exact Hc.
  - destruct (js_truthy (object_get enhancedResponses c)) eqn:Ehit.
    + rewrite H in Ehit. exact Ehit.
    + repeat match type of H with
             | context [if ?b then _ else _] => destruct b
             end;
      injection H as <-; try reflexivity.
      apply str_truthy_app_r. reflexivity.
Qed.

(** ** C1: [getRAGResponse] fails open *)

(** C1.  [getRAGResponse] never rejects.  With no endpoint it returns the
    fixed non-empty degraded answer with a context naming the disabled
    state; when the call to [/rag-generate] fails (non-2xx status,
    transport error, timeout) it returns the very same answer text with
    the context [Error retrieving context]; on a 2xx response it returns
    the server's body as it is.  It never writes to the store. *)
Theorem getRAGResponse_fail_open (env : Env) (w : World) (userId query : string)
    (threadId : option N) :
  let '(r, w') := getRAGResponse userId query threadId env w in
  let req := mkRagRequest (url_of (svc env) ++ "/rag-generate") userId threadId query in
  (exists v, r = inr v) /\
  db w' = db w /\
  str_truthy degraded_answer = true /\
  includes disabled_context "disabled" = true /\
  includes error_context "Error" = true /\
  (enabled (svc env) = false ->
     r = inr (Some (mkRAGResponse (Some degraded_answer) (Some disabled_context) None))) /\
  (enabled (svc env) = true -> http_failed (rag_backend env req) ->
     r = inr (Some (mkRAGResponse (Some degraded_answer) (Some error_context) None))) /\
  (enabled (svc env) = true -> forall st d, rag_backend env req = HttpResponse st d ->
     (200 <= st)%N -> (st < 300)%N -> r = inr d).
Proof.
  unfold getRAGResponse, bind, ask_svc, try_catch, post_rag, ret.
  destruct (enabled (svc env)) eqn:En; simpl.
  - set (req := mkRagRequest _ _ _ _).
    destruct (rag_backend env req) as [st d | m | ] eqn:B; simpl.
    + destruct ((200 <=? st)%N && (st <? 300)%N) eqn:S.
      * apply andb_true_iff in S as [S1 S2].
        apply N.leb_le in S1. apply N.ltb_lt in S2.
        repeat split; try (eexists; reflexivity); try discriminate.
        -- intros _ Hf. exfalso. apply Hf. split; assumption.
        -- intros _ st' d' E _ _. injection E as -> ->. reflexivity.
      * repeat split; try (eexists; reflexivity); try discriminate.
        intros _ st' d' E H1 H2. injection E as -> ->.
        apply N.leb_le in H1. apply N.ltb_lt in H2. rewrite H1, H2 in S. discriminate.
    + repeat split; try (eexists; reflexivity); try discriminate.
    + repeat split; try (eexists; reflexivity); try discriminate.
  - repeat split; try (eexists; reflexivity); discriminate.
Qed.

(** ** C3: long answers pass through *)

(** C3.  A candidate answer longer than 200 characters is returned by
    [enhanceResponse] unchanged, whatever the query. *)
Theorem enhanceResponse_long_unchanged (candidateAnswer q : string) :
  200 < String.length candidateAnswer -> enhanceResponse candidateAnswer q = JsStr candidateAnswer.
Proof.
  intros H. unfold enhanceResponse.
  apply Nat.ltb_lt in H. rewrite H. reflexivity.
Qed.

(** ** C4: boilerplate answers map to their substitutes *)

(** C4.  A candidate answer equal to one of the four boilerplate strings
    of [enhancedResponses] is mapped to that entry's substitute, whatever
    the query (so the output is the same on every call). *)
Theorem enhanceResponse_boilerplate (candidateAnswer substitute q : string) :
  In (candidateAnswer, substitute) enhancedResponses ->
  String.length candidateAnswer <= 200 /\
  enhanceResponse candidateAnswer q = JsStr substitute.
Proof.
  intros H. simpl in H.
  destruct H as [H | [H | [H | [H | []]]]]; injection H as <- <-;
    split; vm_compute; try reflexivity; repeat constructor.
Qed.

(** ** C5: the category classification *)

(** C5 (evidence).  [enhancedResponses[originalResponse]] is a property
    read on an object literal, so a short candidate that names a member
    of [Object.prototype], such as ["constructor"], is "found" there: the
    function [Object.prototype.constructor] is returned instead of the
    greeting elaboration the query selects, while an ordinary short
    candidate with the same query gets the greeting, and a query with
    greeting and help keywords resolves to the greeting. *)
Theorem enhanceResponse_constructor_key :
  String.length "constructor" <= 200 /\
  assoc_str "constructor" enhancedResponses = None /\
  enhanceResponse "constructor" "hello" = JsProtoMember "constructor" /\
  enhanceResponse "ok" "hello" = JsStr greeting_reply /\
  enhanceResponse "ok" "hello and help" = JsStr greeting_reply.
Proof. vm_compute. repeat split; repeat constructor. Qed.

(** ** Store lemmas *)

Lemma most_recent_none (p : Thread -> bool) (ts : list Thread) :
  (forall t, In t ts -> p t = false) -> most_recent p ts = None.
Proof.
  induction ts as [| t ts IH]; intros H; simpl; [reflexivity |].
  rewrite (H t (or_introl eq_refl)). apply IH. intros t' Ht'. apply H. right. exact Ht'.
Qed.

Definition db_wf (d : DB) : Prop :=
  (forall t, In t (threads d) -> (thread_id t < next_id d)%N) /\
  (forall m, In m (messages d) ->
     (message_id m < next_id d)%N /\ (message_threadId m < next_id d)%N).

Lemma filter_thread_old (ms : list Message) (nid : N) :
  (forall m, In m ms -> (message_threadId m < nid)%N) ->
  filter (fun m => (message_threadId m =? nid)%N) ms = [].
Proof.
  induction ms as [| m ms IH]; intros H; simpl; [reflexivity |].
  assert (Hm : (message_threadId m < nid)%N) by (apply H; left; reflexivity).
  destruct (N.eqb_spec (message_threadId m) nid) as [E | _]; [lia |].
  apply IH. intros m' Hm'. apply H. right. exact Hm'.
Qed.

Lemma degraded_answer_passes :
  str_or (str_or degraded_answer "") fallback_answer = degraded_answer /\
  enhanceResponse degraded_answer "Hello" = JsStr degraded_answer.
Proof. split; vm_compute; reflexivity. Qed.

Ltac run_monad :=
  cbv beta iota zeta delta [createTurn generateOnly batchCreateMessages resolveThread bind ret
    throw try_catch ask_svc emit get_db put_db post_embed post_rag thread_findOne_active
    thread_findById thread_create message_save thread_touch message_insertMany index_message
    fetch_rag getRAGResponse createEmbedding enhance_step].

(** ** C2: the end-to-end turn with retrieval disabled *)

(** C2.  [createTurn] with content ["Hello"] and user ["u1"], no thread id,
    no thread of ["u1"] in the store and the embedding service disabled,
    answers with the disabled-mode degraded text (longer than 200
    characters, so [enhanceResponse] leaves it as it is), with the id of a
    thread it created, active and owned by ["u1"], and the id of the saved
    user message; that thread then holds exactly two messages: the user's
    ["Hello"] and the assistant's answer. *)
Theorem createTurn_hello_disabled (env : Env) (ts : list Thread) (ms : list Message)
    (nid nw : N) (tr : list Event) :
  enabled (svc env) = false ->
  db_wf (mkDB ts ms nid nw) ->
  (forall t, In t ts -> thread_userId t <> "u1") ->
  match createTurn (mkTurnRequest None "Hello" "u1" None) env (mkWorld (mkDB ts ms nid nw) tr) with
  | (inr resp, w') =>
      resp_answer resp = degraded_answer /\
      200 < String.length degraded_answer /\
      (forall t, In t ts -> thread_id t <> resp_threadId resp) /\
      (exists t, In t (threads (db w')) /\ thread_id t = resp_threadId resp /\
                 isActive t = true /\ thread_userId t = "u1" /\ createdBy t = "u1") /\
      (exists mu ma,
          filter (fun m => (message_threadId m =? resp_threadId resp)%N) (messages (db w'))
            = [mu; ma] /\
          message_id mu = resp_messageId resp /\
          msg_sender mu = "u1" /\ msg_content mu = "Hello" /\
          msg_sender ma = "system" /\ msg_content ma = degraded_answer)
  | (inl _, _) => False
  end.
Proof.
  intros En [Hwt Hwm] Hu.
  run_monad. cbn -[enhanceResponse degraded_answer].
  rewrite most_recent_none.
  2:{ intros t Ht. unfold active_of. destruct (String.eqb_spec (thread_userId t) "u1") as [E | _].
      - exfalso. exact (Hu t Ht E).
      - reflexivity. }
  rewrite En. cbn -[degraded_answer enhanceResponse].
  destruct degraded_answer_passes as [E1 E2]. rewrite E1, E2.
  cbn -[degraded_answer]. rewrite En. cbn -[degraded_answer].
  simpl in Hwt, Hwm.
  split; [reflexivity |].
  split; [apply Nat.ltb_lt; vm_compute; reflexivity |].
  split.
  { intros t Ht E. specialize (Hwt t Ht). simpl in Hwt. lia. }
  split.
  { eexists. split.
    - apply in_map_iff. eexists. split; [| apply in_or_app; right; left; reflexivity].
      cbn. rewrite N.eqb_refl. reflexivity.
    - repeat split. }
  eexists; eexists.
  rewrite !filter_app, filter_thread_old.
  2:{ intros m Hm. apply Hwm. exact Hm. }
  cbn. rewrite N.eqb_refl.
  destruct (N.eqb_spec nid nid) as [_ | C]; [| congruence].
  repeat split.
Qed.

(** ** C6: thread resolution *)

Lemma most_recent_none_inv (p : Thread -> bool) (ts : list Thread) :
  most_recent p ts = None -> forall t, In t ts -> p t = false.
Proof.
  induction ts as [| t0 ts IH]; intros R t Ht; [destruct Ht |].
  simpl in R. destruct (p t0) eqn:P0.
  - destruct (most_recent p ts); [destruct (_ <? _)%N |]; discriminate.
  - destruct Ht as [<- | Ht]; [exact P0 | exact (IH R t Ht)].
Qed.

Lemma most_recent_some (p : Thread -> bool) (ts : list Thread) (t : Thread) :
  most_recent p ts = Some t ->
  In t ts /\ p t = true /\
  (forall t', In t' ts -> p t' = true -> (thread_updatedAt t' <= thread_updatedAt t)%N).
Proof.
  revert t. induction ts as [| t0 ts IH]; intros t H; simpl in H; [discriminate |].
  destruct (p t0) eqn:P0.
  - destruct (most_recent p ts) as [t1 |] eqn:R.
    + destruct (IH t1 eq_refl) as [In1 [P1 Max1]].
      destruct (thread_updatedAt t0 <? thread_updatedAt t1)%N eqn:Lt;
        injection H as <-.
      * apply N.ltb_lt in Lt. split; [right; exact In1 | split; [exact P1 |]].
        intros t' [<- | Ht'] Pt'; [lia | apply Max1; assumption].
      * apply N.ltb_ge in Lt. split; [left; reflexivity | split; [exact P0 |]].
        intros t' [<- | Ht'] Pt'; [lia |]. specialize (Max1 t' Ht' Pt'). lia.
    + injection H as <-. split; [left; reflexivity | split; [exact P0 |]].
      intros t' [<- | Ht'] Pt'; [lia |].
      rewrite (most_recent_none_inv _ _ R t' Ht') in Pt'. discriminate.
  - destruct (IH t H) as [In1 [P1 Max1]].
    split; [right; exact In1 | split; [exact P1 |]].
    intros t' [<- | Ht'] Pt'; [congruence | apply Max1; assumption].
Qed.

Lemma substring0_spec (n : nat) (s : string) :
  String.prefix (substring0 n s) s = true /\
  String.length (substring0 n s) = Nat.min n (String.length s).
Proof.
  unfold substring0. revert n.
  induction s as [| c s IH]; intros n; destruct n as [| n]; simpl; auto.
  destruct (IH n) as [P L]. split; [| rewrite L; reflexivity].
  destruct (ascii_dec c c) as [_ | C]; [exact P | congruence].
Qed.

(** C6.  [resolveThread] with no thread id.  When the user has no active
    thread, exactly one thread is appended to the store: active, owned
    and created by the user, titled with the first 50 characters of the
    message content followed by ["..."] exactly when the content is
    longer than 50 characters.  When the user has an active thread, the
    store is left as it is and the id returned is that of an active thread
    of the user with the latest [updatedAt]. *)
Theorem resolveThread_no_id (env : Env) (ts : list Thread) (ms : list Message)
    (nid nw : N) (tr : list Event) (userId content : string) :
  let w := mkWorld (mkDB ts ms nid nw) tr in
  ((forall t, In t ts -> active_of userId t = false) ->
   match resolveThread userId content None env w with
   | (inr id, w') =>
       exists t pre,
         threads (db w') = (ts ++ [t])%list /\ messages (db w') = ms /\
         thread_id t = id /\ isActive t = true /\
         thread_userId t = userId /\ createdBy t = userId /\
         title t = pre ++ (if Nat.ltb 50 (String.length content) then "..." else "") /\
         String.prefix pre content = true /\
         String.length pre = Nat.min 50 (String.length content)
   | (inl _, _) => False
   end) /\
  ((exists t, In t ts /\ active_of userId t = true) ->
   match resolveThread userId content None env w with
   | (inr id, w') =>
       w' = w /\
       exists t, In t ts /\ thread_id t = id /\ isActive t = true /\
         thread_userId t = userId /\
         (forall t', In t' ts -> active_of userId t' = true ->
                     (thread_updatedAt t' <= thread_updatedAt t)%N)
   | (inl _, _) => False
   end).
Proof.
  cbv zeta. split.
  - intros Hnone. run_monad. cbn.
    rewrite (most_recent_none _ _ Hnone). cbn.
    destruct (substring0_spec 50 content) as [P L].
    eexists; eexists. repeat split; eassumption.
  - intros [t0 [In0 A0]]. run_monad. cbn.
    destruct (most_recent (active_of userId) ts) as [t |] eqn:R.
    + destruct (most_recent_some _ _ _ R) as [In1 [A1 Max1]].
      split; [reflexivity |]. exists t.
      unfold active_of in A1. apply andb_true_iff in A1 as [U1 I1].
      apply String.eqb_eq in U1.
      repeat split; assumption.
    + rewrite (most_recent_none_inv _ _ R t0 In0) in A0. discriminate.
Qed.

(** ** C8: the batch import *)

Lemma build_docs_fields (id t : N) (docs : list (N * string * string)) :
  map msg_content (build_docs id t docs) = map (fun d => snd (fst d)) docs /\
  map msg_sender (build_docs id t docs) = map snd docs /\
  map message_threadId (build_docs id t docs) = map (fun d => fst (fst d)) docs.
Proof.
  revert id. induction docs as [| [[tid c] s] docs IH]; intros id; simpl; [auto |].
  destruct (IH (N.succ id)) as [A [B C]]. rewrite A, B, C. auto.
Qed.

(** C8.  [batchCreateMessages] on an existing-id argument and a non-empty
    list of payloads: it fails with [NotFound] when no thread has the id
    and with [Unauthorized] when a [userId] is supplied and is not the
    thread's owner, changing nothing and calling nothing; otherwise (in
    particular when no [userId] is supplied, whoever owns the thread) it
    makes exactly one call, a single [insertMany] of all the payloads,
    appends the created messages to the store and returns them in input
    order, with no call to indexing, retrieval or [enhanceResponse]. *)
Theorem batchCreateMessages_contract (env : Env) (ts : list Thread) (ms : list Message)
    (nid nw : N) (tr : list Event) (tid : N) (items : list BatchItem) (userId : option string) :
  items <> [] ->
  let w := mkWorld (mkDB ts ms nid nw) tr in
  let found := find (fun t => (thread_id t =? tid)%N) ts in
  let '(r, w') := batchCreateMessages (Some (IdOf tid)) (Some items) userId env w in
  (found = None -> r = inl (NotFoundError "Thread not found") /\ w' = w) /\
  (forall thread, found = Some thread ->
     (opt_truthy userId = true -> thread_userId thread <> opt_or userId "" ->
        r = inl (UnauthorizedError "You do not have permission to add messages to this thread")
        /\ w' = w) /\
     (userId = None \/ thread_userId thread = opt_or userId "" ->
        exists created,
          r = inr (map view_of created) /\
          messages (db w') = (ms ++ created)%list /\
          threads (db w') = ts /\
          trace w' = (tr ++ [EvMessageInsertMany (length items)])%list /\
          map msg_content created = map item_content items /\
          map msg_sender created = map (fun i => batch_sender (item_sender i) userId) items /\
          Forall (fun m => message_threadId m = tid) created)).
Proof.
  intros Hne. cbv zeta.
  destruct items as [| i0 items']; [congruence |].
  run_monad. cbn - [find].
  destruct (find (fun t => (thread_id t =? tid)%N) ts) as [thread |] eqn:F.
  - destruct (opt_truthy userId && negb (String.eqb (thread_userId thread) (opt_or userId "")))
      eqn:G; cbn.
    + split; [discriminate |].
      intros thread' E. injection E as <-. split; [intros _ _; split; reflexivity |].
      intros Hok. exfalso. destruct Hok as [-> | Hok]; [discriminate |].
      rewrite Hok, String.eqb_refl, andb_false_r in G. discriminate.
    + split; [discriminate |].
      intros thread' E. injection E as <-. split.
      { intros Hu Hne'. rewrite Hu in G. simpl in G.
        apply negb_false_iff, String.eqb_eq in G. congruence. }
      intros _.
      set (docs := map (fun msg => (tid, item_content msg, batch_sender (item_sender msg) userId))
                       (i0 :: items')).
      exists (build_docs nid nw docs).
      destruct (build_docs_fields nid nw docs) as [A [B C]].
      split; [reflexivity |]. split; [reflexivity |]. split; [reflexivity |].
      split; [unfold docs; rewrite length_map; reflexivity |].
      split; [rewrite A; unfold docs; rewrite map_map; reflexivity |].
      split; [rewrite B; unfold docs; rewrite map_map; reflexivity |].
      apply Forall_forall. intros m Hm.
      assert (Hin : In (message_threadId m) (map message_threadId (build_docs nid nw docs)))
        by (apply in_map; exact Hm).
      rewrite C in Hin. unfold docs in Hin. rewrite map_map in Hin.
      apply in_map_iff in Hin as [x [Ex _]]. simpl in Ex. symmetry. exact Ex.
  - split; [intros _; split; reflexivity |].
    intros thread E. discriminate.
Qed.

(** ** C9: indexing never interferes with a turn *)

(** A computation whose outcome and effects do not depend on what the
    [/embed] endpoint answers. *)
Definition embed_indep {A} (m : M A) : Prop :=
  forall s b1 b2 rb w, m (mkEnv s b1 rb) w = m (mkEnv s b2 rb) w.

Lemma ret_indep {A} (a : A) : embed_indep (ret a).
Proof. intros s b1 b2 rb w. reflexivity. Qed.

Lemma throw_indep {A} (e : JsError) : embed_indep (@throw A e).
Proof. intros s b1 b2 rb w. reflexivity. Qed.

Lemma bind_indep {A B} (m : M A) (f : A -> M B) :
  embed_indep m -> (forall a, embed_indep (f a)) -> embed_indep (bind m f).
Proof.
  intros Hm Hf s b1 b2 rb w. unfold bind. rewrite (Hm s b1 b2 rb w).
  destruct (m (mkEnv s b2 rb) w) as [[e | a] w']; [reflexivity | apply Hf].
Qed.

Lemma if_indep {A} (b : bool) (m1 m2 : M A) :
  embed_indep m1 -> embed_indep m2 -> embed_indep (if b then m1 else m2).
Proof. destruct b; auto. Qed.

Lemma try_catch_indep {A} (m : M A) (h : JsError -> M A) :
  embed_indep m -> (forall e, embed_indep (h e)) -> embed_indep (try_catch m h).
Proof.
  intros Hm Hh s b1 b2 rb w. unfold try_catch. rewrite (Hm s b1 b2 rb w).
  destruct (m (mkEnv s b2 rb) w) as [[e | a] w']; [apply Hh | reflexivity].
Qed.

Lemma get_db_indep : embed_indep get_db.
Proof. intros s b1 b2 rb w. reflexivity. Qed.

Lemma put_db_indep (d : DB) : embed_indep (put_db d).
Proof. intros s b1 b2 rb w. reflexivity. Qed.

Lemma emit_indep (ev : Event) : embed_indep (emit ev).
Proof. intros s b1 b2 rb w. reflexivity. Qed.

Lemma ask_svc_indep : embed_indep ask_svc.
Proof. intros s b1 b2 rb w. reflexivity. Qed.

Lemma post_rag_indep (req : RagRequest) : embed_indep (post_rag req).
Proof. intros s b1 b2 rb w. reflexivity. Qed.

Create HintDb indep.
#[local] Hint Resolve ret_indep throw_indep get_db_indep put_db_indep emit_indep ask_svc_indep
  post_rag_indep : indep.

Ltac indep_step :=
  match goal with
  | |- embed_indep (bind _ _) => apply bind_indep; [| intros ?]
  | |- embed_indep (try_catch _ _) => apply try_catch_indep; [| intros ?]
  | |- embed_indep (if _ then _ else _) => apply if_indep
  | |- embed_indep (match ?x with _ => _ end) => destruct x
  | |- embed_indep (let '(_, _) := ?x in _) => destruct x
  | |- embed_indep _ => solve [eauto with indep]
  end.

(** Whatever the [/embed] endpoint does, [index_message] records the
    request it makes (if the service is enabled), succeeds, and leaves
    the store alone. *)
Lemma index_message_outcome (u c : string) (t mid : N) (env : Env) (w : World) :
  index_message u c t mid env w =
  (inr tt,
   if enabled (svc env)
   then mkWorld (db w) (trace w ++
          [EvEmbed (mkEmbedRequest (url_of (svc env) ++ "/embed") u (Some t) c (Some mid))])
   else w).
Proof.
  unfold index_message, createEmbedding, bind, ask_svc, try_catch, post_embed, ret, throw.
  destruct (enabled (svc env)) eqn:En; [| reflexivity]. cbn. rewrite En.
  simpl.
  destruct (axios_post (embed_backend env
              (mkEmbedRequest (url_of (svc env) ++ "/embed") u (Some t) c (Some mid))))
    as [[] | [r |]]; reflexivity.
Qed.

Lemma index_message_indep (u c : string) (t mid : N) : embed_indep (index_message u c t mid).
Proof.
  intros s b1 b2 rb w. rewrite !index_message_outcome. reflexivity.
Qed.
#[local] Hint Resolve index_message_indep : indep.

Lemma getRAGResponse_indep (u q : string) (t : option N) : embed_indep (getRAGResponse u q t).
Proof. unfold getRAGResponse. repeat indep_step. Qed.
#[local] Hint Resolve getRAGResponse_indep : indep.

Lemma fetch_rag_indep (u q : string) (t : option N) : embed_indep (fetch_rag u q t).
Proof. unfold fetch_rag. repeat indep_step. Qed.
#[local] Hint Resolve fetch_rag_indep : indep.

Lemma enhance_step_indep (c q : string) : embed_indep (enhance_step c q).
Proof. unfold enhance_step. repeat indep_step. Qed.
#[local] Hint Resolve enhance_step_indep : indep.

Lemma store_ops_indep :
  (forall u, embed_indep (thread_findOne_active u)) /\
  (forall t, embed_indep (thread_findById t)) /\
  (forall u ti cb a, embed_indep (thread_create u ti cb a)) /\
  (forall t, embed_indep (thread_touch t)) /\
  (forall t c s' f, embed_indep (message_save t c s' f)).
Proof.
  repeat split; intros;
    unfold thread_findOne_active, thread_findById, thread_create, thread_touch, message_save;
    repeat indep_step.
Qed.

Lemma resolveThread_indep (u c : string) (t : option N) : embed_indep (resolveThread u c t).
Proof.
  destruct store_ops_indep as [H1 [H2 [H3 [H4 H5]]]].
  unfold resolveThread. repeat indep_step.
Qed.

Lemma createTurn_indep (req : TurnRequest) : embed_indep (createTurn req).
Proof.
  destruct store_ops_indep as [H1 [H2 [H3 [H4 H5]]]].
  pose proof resolveThread_indep.
  unfold createTurn. repeat indep_step.
Qed.

Lemma generateOnly_indep (t : option IdArg) (q : string) : embed_indep (generateOnly t q).
Proof.
  destruct store_ops_indep as [H1 [H2 [H3 [H4 H5]]]].
  unfold generateOnly. repeat indep_step.
Qed.

(** C9 (as amended).  [createEmbedding] never rejects and never writes to
    the store.  Disabled, it sends nothing and returns
    [{status: 'error', error: 'Embedding Service is disabled: No API URL
    available'}]; when the call to [/embed] fails (non-2xx status,
    transport error, timeout) it returns
    [{status: 'error', error: 'API error: <status or unknown> - <message>'}].
    Each indexing step of a turn succeeds, and the whole run of
    [POST /] and of [POST /generate] (answer, store and the sequence of
    requests made, including the assistant-message indexing request) is
    the same whatever the [/embed] endpoint answers. *)
Theorem createEmbedding_contained (env : Env) (w : World) (userId content : string)
    (threadId messageId : option N) :
  let req := mkEmbedRequest (url_of (svc env) ++ "/embed") userId threadId content messageId in
  let '(r, w') := createEmbedding userId content threadId messageId env w in
  (exists v, r = inr v) /\
  db w' = db w /\
  (enabled (svc env) = false ->
     r = inr (Some (mkEmbeddingResponse "error" (Some disabled_error))) /\ w' = w) /\
  (enabled (svc env) = true -> http_failed (embed_backend env req) ->
     exists st m,
       r = inr (Some (mkEmbeddingResponse "error"
                        (Some ("API error: " ++ status_or_unknown st ++ " - " ++ m))))) /\
  (forall u c t mid, fst (index_message u c t mid env w) = inr tt) /\
  (forall treq, embed_indep (createTurn treq)) /\
  (forall t q, embed_indep (generateOnly t q)).
Proof.
  cbv zeta.
  assert (Hidx : forall u c t mid, fst (index_message u c t mid env w) = inr tt)
    by (intros; rewrite index_message_outcome; reflexivity).
  unfold createEmbedding, bind, ask_svc, try_catch, post_embed, ret.
  destruct (enabled (svc env)) eqn:En; simpl.
  - set (req := mkEmbedRequest _ _ _ _ _).
    destruct (embed_backend env req) as [st d | m | ] eqn:B; simpl.
    + destruct ((200 <=? st)%N && (st <? 300)%N) eqn:S; simpl.
      * repeat split; try (eexists; reflexivity); try discriminate; auto using
          createTurn_indep, generateOnly_indep.
        intros _ Hf. exfalso. apply Hf.
        apply andb_true_iff in S as [S1 S2].
        split; [apply N.leb_le | apply N.ltb_lt]; assumption.
      * repeat split; try (eexists; reflexivity); try discriminate; auto using
          createTurn_indep, generateOnly_indep.
        intros _ _. exists (Some st), ("Request failed with status code " ++ N_to_dec st).
        reflexivity.
    + repeat split; try (eexists; reflexivity); try discriminate; auto using
        createTurn_indep, generateOnly_indep.
      intros _ _. exists None, m. reflexivity.
    + repeat split; try (eexists; reflexivity); try discriminate; auto using
        createTurn_indep, generateOnly_indep.
      intros _ _. exists None, "timeout exceeded". reflexivity.
  - repeat split; try (eexists; reflexivity); try discriminate; auto using
      createTurn_indep, generateOnly_indep.
Qed.

(** An embedding service built with no URL and no [EMBEDDING_API_URL]. *)
Definition env_disabled : Env :=
  mkEnv (newEmbeddingService None None) (fun _ => HttpTimeout) (fun _ => HttpTimeout).

Definition empty_world : World := mkWorld (mkDB [] [] 0 0) [].

(** C9 (counterexample).  Disabled, [createEmbedding] does not return an
    error field equal to ["disabled"]: it returns
    [{status: 'error', error: 'Embedding Service is disabled: No API URL available'}]. *)
Lemma createEmbedding_disabled_error_text :
  fst (createEmbedding "u1" "Hello" None None env_disabled empty_world)
    = inr (Some (mkEmbeddingResponse "error" (Some disabled_error))) /\
  ~ (exists r, fst (createEmbedding "u1" "Hello" None None env_disabled empty_world)
                 = inr (Some r) /\ emb_error r = Some "disabled").
Proof.
  split; [reflexivity |].
  intros [r [E H]]. vm_compute in E. injection E as <-. discriminate H.
Qed.

(** ** C10: a completed turn answers with a non-empty string *)

Lemma bind_inr_inv {A B} (m : M A) (f : A -> M B) (env : Env) (w w'' : World) (b : B) :
  bind m f env w = (inr b, w'') ->
  exists a w', m env w = (inr a, w') /\ f a env w' = (inr b, w'').
Proof.
  unfold bind. destruct (m env w) as [[e | a] w']; intros H; [discriminate |].
  exists a, w'. split; [reflexivity | exact H].
Qed.

Ltac peel H a w1 Hs := apply bind_inr_inv in H; destruct H as (a & w1 & Hs & H).

Lemma message_save_spec (t : N) (c s : string) (f : list string) (env : Env) (w w' : World)
    (m : Message) :
  message_save t c s f env w = (inr m, w') ->
  messages (db w') = (messages (db w) ++ [m])%list /\ msg_content m = c /\ msg_sender m = s.
Proof.
  unfold message_save, bind, get_db, put_db, emit, ret. cbn.
  intros H. injection H as <- <-. cbn. auto.
Qed.

Lemma index_message_db (u c : string) (t mid : N) (env : Env) (w w' : World) (x : unit) :
  index_message u c t mid env w = (inr x, w') -> db w' = db w.
Proof.
  rewrite index_message_outcome. intros H. injection H as _ <-.
  destruct (enabled (svc env)); reflexivity.
Qed.

Lemma fetch_rag_db (u q : string) (t : option N) (env : Env) (w w' : World) r :
  fetch_rag u q t env w = (r, w') -> db w' = db w.
Proof.
  unfold fetch_rag, getRAGResponse, try_catch, bind, ask_svc, post_rag, ret, throw.
  destruct (enabled (svc env)); cbn.
  - destruct (axios_post (rag_backend env _)) as [e | [d |]]; cbn;
      intros H; injection H as _ <-; reflexivity.
  - intros H. injection H as _ <-. reflexivity.
Qed.

Lemma enhance_step_spec (c q s : string) (env : Env) (w w' : World) :
  enhance_step c q env w = (inr s, w') ->
  enhanceResponse c q = JsStr s /\ db w' = db w.
Proof.
  unfold enhance_step, bind, emit, ret, throw.
  destruct (enhanceResponse c q); cbn; intros H; try discriminate.
  injection H as <- <-. auto.
Qed.

Lemma thread_touch_messages (t : N) (env : Env) (w w' : World) r :
  thread_touch t env w = (r, w') -> messages (db w') = messages (db w).
Proof.
  unfold thread_touch, bind, get_db, put_db, emit, ret. cbn.
  intros H. injection H as _ <-. reflexivity.
Qed.

Lemma resolveThread_messages (u c : string) (t : option N) (env : Env) (w w' : World) r :
  resolveThread u c t env w = (r, w') -> messages (db w') = messages (db w).
Proof.
  unfold resolveThread, thread_findOne_active, thread_findById, thread_create,
    bind, get_db, put_db, emit, ret, throw.
  destruct t as [id |]; cbn.
  - destruct (find _ _); cbn; intros H; injection H as _ <-; reflexivity.
  - destruct (most_recent _ _); cbn; intros H; injection H as _ <-; reflexivity.
Qed.

Lemma thread_findById_world (t : N) (env : Env) (w w' : World) r :
  thread_findById t env w = (r, w') -> w' = w.
Proof. unfold thread_findById, bind, get_db, ret. intros H. injection H as _ <-. reflexivity. Qed.

Lemma fallback_enhanced (q : string) :
  exists s, enhanceResponse fallback_answer q = JsStr s /\ s <> "".
Proof.
  eexists. split; [vm_compute; reflexivity | discriminate].
Qed.

(** C10.  The literal ['Sorry, I could not generate a response.'], which
    both routes put in place of an empty or missing retrieval answer, is
    mapped by [enhanceResponse] to a non-empty string.  A turn of
    [POST /] or of [POST /generate] that completes answers with a
    non-empty string, and that string is the content of the assistant
    message (sender ['system']) it appended to the store after the user's
    message. *)
Theorem completed_turn_answer_nonempty (env : Env) (w : World) (req : TurnRequest)
    (threadId : option IdArg) (userMessage : string) :
  (forall q, exists s, enhanceResponse fallback_answer q = JsStr s /\ s <> "") /\
  match createTurn req env w with
  | (inr resp, w') =>
      resp_answer resp <> "" /\
      exists mu ma, messages (db w') = (messages (db w) ++ [mu; ma])%list /\
        msg_sender ma = "system" /\ msg_content ma = resp_answer resp
  | (inl _, _) => True
  end /\
  match generateOnly threadId userMessage env w with
  | (inr resp, w') =>
      gen_answer resp <> "" /\
      exists mu ma, messages (db w') = (messages (db w) ++ [mu; ma])%list /\
        msg_sender ma = "system" /\ msg_content ma = gen_answer resp
  | (inl _, _) => True
  end.
Proof.
  split; [exact fallback_enhanced |]. split.
  - destruct (createTurn req env w) as [[e | resp] w'] eqn:E; [exact I |].
    unfold createTurn in E. cbv zeta in E.
    destruct (negb (str_truthy (req_content req))); [discriminate E |].
    destruct (negb (str_truthy (req_userId req))); [discriminate E |].
    destruct (id_truthy (req_threadId req) && negb (isValidObjectId (req_threadId req)));
      [discriminate E |].
    peel E tid w1 H1. apply resolveThread_messages in H1.
    peel E mu w2 H2. apply message_save_spec in H2 as [M1 _].
    peel E u3 w3 H3. apply index_message_db in H3.
    peel E rag w4 H4. apply fetch_rag_db in H4.
    destruct rag as [[ragAnswer ragContext] responseId].
    peel E s w5 H5. apply enhance_step_spec in H5 as [En H5].
    peel E ma w6 H6. apply message_save_spec in H6 as [M2 [C2 S2]].
    peel E u7 w7 H7. apply index_message_db in H7.
    peel E u8 w8 H8. apply thread_touch_messages in H8.
    unfold ret in E. injection E as <- <-. cbn.
    split.
    + apply str_truthy_nonempty. eapply enhanceResponse_nonempty; [| exact En].
      apply str_or_truthy. reflexivity.
    + exists mu, ma. split; [| split; [exact S2 | exact C2]].
      rewrite H8, H7, M2, H5, H4, H3, M1, H1. rewrite <- app_assoc. reflexivity.
  - destruct (generateOnly threadId userMessage env w) as [[e | resp] w'] eqn:E; [exact I |].
    unfold generateOnly in E.
    destruct (negb (id_truthy threadId) || negb (str_truthy userMessage)); [discriminate E |].
    destruct (negb (isValidObjectId threadId)); [discriminate E |].
    destruct (id_value threadId) as [tid |]; [| discriminate E].
    peel E found w1 H1. apply thread_findById_world in H1. subst w1.
    destruct found as [thread |]; [| discriminate E].
    cbv zeta in E.
    peel E mu w2 H2. apply message_save_spec in H2 as [M1 _].
    peel E u3 w3 H3. apply index_message_db in H3.
    peel E rag w4 H4. apply fetch_rag_db in H4.
    destruct rag as [[ragAnswer ragContext] responseId].
    peel E s w5 H5. apply enhance_step_spec in H5 as [En H5].
    peel E ma w6 H6. apply message_save_spec in H6 as [M2 [C2 S2]].
    peel E u7 w7 H7. apply index_message_db in H7.
    unfold ret in E. injection E as <- <-. cbn.
    split.
    + apply str_truthy_nonempty. eapply enhanceResponse_nonempty; [| exact En].
      apply str_or_truthy. reflexivity.
    + exists mu, ma. split; [| split; [exact S2 | exact C2]].
      rewrite H7, M2, H5, H4, H3, M1. rewrite <- app_assoc. reflexivity.
Qed.

(** ** C7: memory recall *)

(** A thread of ["u1"] holding one earlier user message. *)
Definition memory_world : World :=
  mkWorld (mkDB [mkThread 0 "u1" "IoT" true "u1" 0 0]
                [mkMessage 1 0 "I built an IoT dashboard" "u1" [] 1 1] 2 2) [].

(** [new RegExp(p, 'i').test] for a pattern [p] without metacharacters:
    a case-insensitive substring test. *)
Definition literal_regex_i (p : string) : option (string -> bool) :=
  Some (fun s => includes (toLowerCase s) (toLowerCase p)).

(** C7 (evidence).  [getRelevantMemory] splits the lowered query with
    [/\s+/] without trimming it, so a query ending in white space has
    [''] as its last piece; [''] is not a stop word, it becomes the
    keyword, and the recall returns nothing and searches nothing, whatever
    regular-expression engine is used, although the token ["iot"] is left
    after the stop words are removed.  The same query without the
    trailing space recalls the matching message. *)
Theorem getRelevantMemory_trailing_space (re_compile : string -> option (string -> bool))
    (env : Env) :
  split_ws "remind me about iot " = ["remind"; "me"; "about"; "iot"; ""] /\
  filter (fun w => negb (existsb (String.eqb w) stop_words)) (split_ws "remind me about iot ")
    = ["remind"; "me"; "iot"; ""] /\
  getRelevantMemory re_compile 0 "remind me about iot " env memory_world
    = (inr [], memory_world) /\
  fst (getRelevantMemory literal_regex_i 0 "remind me about iot" env memory_world)
    = inr [bullet ++ "I built an IoT dashboard"].
Proof. split; [reflexivity | split; [reflexivity | split; reflexivity]]. Qed.

(** ** Witnesses: the hypotheses of the theorems hold at concrete inputs *)

(** A store with one thread of another user and one of its messages. *)
Definition other_world : World :=
  mkWorld (mkDB [mkThread 0 "u2" "Hi" true "u2" 0 0]
                [mkMessage 1 0 "Hi" "u2" [] 1 1] 2 2) [].

Lemma createTurn_hello_disabled_witness :
  enabled (svc env_disabled) = false /\
  db_wf (db other_world) /\
  (forall t, In t (threads (db other_world)) -> thread_userId t <> "u1") /\
  match createTurn (mkTurnRequest None "Hello" "u1" None) env_disabled other_world with
  | (inr resp, w') =>
      resp_answer resp = degraded_answer /\
      200 < String.length degraded_answer /\
      (forall t, In t (threads (db other_world)) -> thread_id t <> resp_threadId resp) /\
      (exists t, In t (threads (db w')) /\ thread_id t = resp_threadId resp /\
                 isActive t = true /\ thread_userId t = "u1" /\ createdBy t = "u1") /\
      (exists mu ma,
          filter (fun m => (message_threadId m =? resp_threadId resp)%N) (messages (db w'))
            = [mu; ma] /\
          message_id mu = resp_messageId resp /\
          msg_sender mu = "u1" /\ msg_content mu = "Hello" /\
          msg_sender ma = "system" /\ msg_content ma = degraded_answer)
  | (inl _, _) => False
  end.
Proof.
  assert (Hwf : db_wf (db other_world)).
  { split; simpl; intros x Hx.
    - destruct Hx as [<- | []]. simpl. lia.
    - destruct Hx as [<- | []]. simpl. lia. }
  assert (Hu : forall t, In t (threads (db other_world)) -> thread_userId t <> "u1").
  { intros t [<- | []]. simpl. discriminate. }
  split; [reflexivity |]. split; [exact Hwf |]. split; [exact Hu |].
  exact (createTurn_hello_disabled env_disabled _ _ 2 2 [] eq_refl Hwf Hu).
Defined.

Lemma enhanceResponse_long_unchanged_witness :
  200 < String.length degraded_answer /\
  enhanceResponse degraded_answer "hello" = JsStr degraded_answer.
Proof.
  assert (H : 200 < String.length degraded_answer) by (apply Nat.ltb_lt; vm_compute; reflexivity).
  split; [exact H | exact (enhanceResponse_long_unchanged degraded_answer "hello" H)].
Defined.

Lemma enhanceResponse_boilerplate_witness :
  In (fallback_answer,
      "I apologize, but I'm having trouble generating a response right now. This could be due to a temporary issue with my knowledge base or the complexity of your question. Could you please try rephrasing your question or ask something more specific? I'm here to help and want to provide you with the best possible assistance.")
     enhancedResponses /\
  String.length fallback_answer <= 200 /\
  enhanceResponse fallback_answer "bye" =
    JsStr "I apologize, but I'm having trouble generating a response right now. This could be due to a temporary issue with my knowledge base or the complexity of your question. Could you please try rephrasing your question or ask something more specific? I'm here to help and want to provide you with the best possible assistance.".
Proof.
  assert (H : In (fallback_answer,
      "I apologize, but I'm having trouble generating a response right now. This could be due to a temporary issue with my knowledge base or the complexity of your question. Could you please try rephrasing your question or ask something more specific? I'm here to help and want to provide you with the best possible assistance.")
     enhancedResponses) by (left; reflexivity).
  split; [exact H | exact (enhanceResponse_boilerplate _ _ "bye" H)].
Defined.

(** Three payloads imported without a [userId] into the thread of
    [other_world], owned by ["u2"]. *)
Definition three_items : list BatchItem :=
  [mkBatchItem "m1" None; mkBatchItem "m2" (Some "u2"); mkBatchItem "m3" None].

Lemma batchCreateMessages_contract_witness :
  three_items <> [] /\
  let w := other_world in
  let found := find (fun t => (thread_id t =? 0)%N) (threads (db other_world)) in
  let '(r, w') := batchCreateMessages (Some (IdOf 0)) (Some three_items) None env_disabled w in
  (found = None -> r = inl (NotFoundError "Thread not found") /\ w' = w) /\
  (forall thread, found = Some thread ->
     (opt_truthy None = true -> thread_userId thread <> opt_or None "" ->
        r = inl (UnauthorizedError "You do not have permission to add messages to this thread")
        /\ w' = w) /\
     (None = @None string \/ thread_userId thread = opt_or None "" ->
        exists created,
          r = inr (map view_of created) /\
          messages (db w') = (messages (db other_world) ++ created)%list /\
          threads (db w') = threads (db other_world) /\
          trace w' = (trace other_world ++ [EvMessageInsertMany (length three_items)])%list /\
          map msg_content created = map item_content three_items /\
          map msg_sender created = map (fun i => batch_sender (item_sender i) None) three_items /\
          Forall (fun m => message_threadId m = 0%N) created)).
Proof.
  assert (H : three_items <> []) by discriminate.
  split; [exact H |].
  exact (batchCreateMessages_contract env_disabled _ _ 2 2 [] 0 three_items None H).
Defined.

Definition long_content : string :=
  "Please remind me how the dashboard aggregates IoT sensor data per hour".

Lemma resolveThread_no_id_witness :
  (forall t, In t (threads (db other_world)) -> active_of "u1" t = false) /\
  (exists t, In t (threads (db other_world)) /\ active_of "u2" t = true) /\
  match resolveThread "u1" long_content None env_disabled other_world with
  | (inr id, w') =>
      exists t pre,
        threads (db w') = (threads (db other_world) ++ [t])%list /\
        messages (db w') = messages (db other_world) /\
        thread_id t = id /\ isActive t = true /\
        thread_userId t = "u1" /\ createdBy t = "u1" /\
        title t = pre ++ (if Nat.ltb 50 (String.length long_content) then "..." else "") /\
        String.prefix pre long_content = true /\
        String.length pre = Nat.min 50 (String.length long_content)
  | (inl _, _) => False
  end /\
  match resolveThread "u2" long_content None env_disabled other_world with
  | (inr id, w') =>
      w' = other_world /\
      exists t, In t (threads (db other_world)) /\ thread_id t = id /\ isActive t = true /\
        thread_userId t = "u2" /\
        (forall t', In t' (threads (db other_world)) -> active_of "u2" t' = true ->
                    (thread_updatedAt t' <= thread_updatedAt t)%N)
  | (inl _, _) => False
  end.
Proof.
  assert (H1 : forall t, In t (threads (db other_world)) -> active_of "u1" t = false).
  { intros t [<- | []]. reflexivity. }
  assert (H2 : exists t, In t (threads (db other_world)) /\ active_of "u2" t = true).
  { eexists. split; [left; reflexivity | reflexivity]. }
  split; [exact H1 |]. split; [exact H2 |]. split.
  - exact (proj1 (resolveThread_no_id env_disabled _ _ 2 2 [] "u1" long_content) H1).
  - exact (proj2 (resolveThread_no_id env_disabled _ _ 2 2 [] "u2" long_content) H2).
Defined.

(** An enabled service whose [/rag-generate] endpoint answers 500. *)
Definition env_failing : Env :=
  mkEnv (newEmbeddingService (Some "http://localhost:8000") None)
        (fun _ => HttpTimeout)
        (fun _ => HttpResponse 500 None).

Lemma getRAGResponse_fail_open_witness :
  enabled (svc env_failing) = true /\
  http_failed (rag_backend env_failing
    (mkRagRequest (url_of (svc env_failing) ++ "/rag-generate") "u1" None "Hello")) /\
  fst (getRAGResponse "u1" "Hello" None env_failing empty_world)
    = inr (Some (mkRAGResponse (Some degraded_answer) (Some error_context) None)).
Proof.
  assert (E : enabled (svc env_failing) = true) by reflexivity.
  assert (F : http_failed (rag_backend env_failing
    (mkRagRequest (url_of (svc env_failing) ++ "/rag-generate") "u1" None "Hello"))).
  { simpl. intros [_ H]. lia. }
  split; [exact E |]. split; [exact F |].
  pose proof (getRAGResponse_fail_open env_failing empty_world "u1" "Hello" None) as T.
  destruct (getRAGResponse "u1" "Hello" None env_failing empty_world) as [r w'].
  exact (proj1 (proj2 (proj2 (proj2 (proj2 (proj2 (proj2 T)))))) E F).
Defined.

(** * Further properties of the routes, services and serverless entry *)


Lemma verify_owner_eq (u : option string) (t : N) (d : string) (env : Env) (w : World) :
  verify_owner u t d env w =
  (if opt_truthy u then
     match find_thread t (threads (db w)) with
     | None => inl (NotFoundError "Thread not found")
     | Some th => if String.eqb (thread_userId th) (opt_or u "") then inr tt
                  else inl (UnauthorizedError d)
     end
   else inr tt, w).
Proof.
  unfold verify_owner, thread_findById, find_thread, bind, get_db, ret, throw.
  destruct (opt_truthy u); [| reflexivity].
  destruct (find _ _) as [th |]; [| reflexivity].
  destruct (String.eqb _ _); reflexivity.
Qed.

Lemma getMessage_eq (mid : N) (u : option string) (env : Env) (w : World) :
  getMessage (IdOf mid) u env w =
  (match find_msg mid (messages (db w)) with
   | None => inl (NotFoundError "Message not found")
   | Some msg =>
       match fst (verify_owner u (message_threadId msg)
                    "You do not have permission to access this message" env w) with
       | inl e => inl e
       | inr _ => inr (view_of msg)
       end
   end, w).
Proof.
  unfold getMessage, message_findById, find_msg, bind, get_db, ret, throw. simpl.
  destruct (find _ _) as [msg |]; [| reflexivity].
  rewrite verify_owner_eq. simpl.
  destruct (opt_truthy u); [| reflexivity].
  destruct (find_thread _ _) as [th |]; [| reflexivity].
  destruct (String.eqb _ _); reflexivity.
Qed.

(** GET /:id never writes the store, whatever the outcome. *)
Lemma getMessage_read_only (id : IdArg) (userId : option string) (env : Env) (w : World) :
  snd (getMessage id userId env w) = w.
Proof.
  destruct id as [mid | s]; [| reflexivity].
  rewrite getMessage_eq. reflexivity.
Qed.

(** With a non-empty [userId], GET /:id returns a message exactly when it
    exists and its thread exists and belongs to that user; without a
    [userId], it returns any existing message and reports a missing one
    as not found. *)
Lemma getMessage_access (mid : N) (s : string) (env : Env) (w : World) (v : MessageView) :
  str_truthy s = true ->
  (fst (getMessage (IdOf mid) (Some s) env w) = inr v <->
   exists msg thread,
     find (fun m => (message_id m =? mid)%N) (messages (db w)) = Some msg /\
     find (fun t => (thread_id t =? message_threadId msg)%N) (threads (db w)) = Some thread /\
     thread_userId thread = s /\ v = view_of msg) /\
  fst (getMessage (IdOf mid) None env w) =
    match find (fun m => (message_id m =? mid)%N) (messages (db w)) with
    | Some msg => inr (view_of msg)
    | None => inl (NotFoundError "Message not found")
    end.
Proof.
  intros Hs. split.
  - rewrite getMessage_eq. unfold find_msg. simpl.
    destruct (find _ (messages (db w))) as [msg |] eqn:Em.
    + rewrite verify_owner_eq. simpl. rewrite Hs. unfold find_thread.
      destruct (find _ (threads (db w))) as [th |] eqn:Et.
      * unfold opt_or, str_or. rewrite Hs. destruct (String.eqb_spec (thread_userId th) s) as [Eq | Ne].
        -- split.
           ++ intros H. injection H as <-. exists msg, th. auto.
           ++ intros (m & t & H1 & H2 & H3 & H4). injection H1 as <-. subst. reflexivity.
        -- split; [discriminate |].
           intros (m & t & H1 & H2 & H3 & H4). injection H1 as <-. rewrite Et in H2. injection H2 as <-.
           contradiction.
      * split; [discriminate |].
        intros (m & t & H1 & H2 & _). injection H1 as <-. rewrite Et in H2. discriminate H2.
    + split; [discriminate |]. intros (m & t & H1 & _). discriminate H1.
  - rewrite getMessage_eq. unfold find_msg. simpl.
    destruct (find _ (messages (db w))) as [msg |]; reflexivity.
Qed.

Lemma find_msg_some (mid : N) (ms : list Message) (m : Message) :
  find_msg mid ms = Some m -> message_id m = mid /\ In m ms.
Proof.
  unfold find_msg. intros H. pose proof (find_some _ _ H) as [Hin Hid].
  apply N.eqb_eq in Hid. auto.
Qed.

Lemma updateMessage_success (mid : N) (c : string) (u : option string) (env : Env)
    (w w' : World) (v : MessageView) :
  updateMessage (IdOf mid) c u env w = (inr v, w') ->
  exists msg,
    find_msg mid (messages (db w)) = Some msg /\
    fst (verify_owner u (message_threadId msg)
           "You do not have permission to update this message" env w) = inr tt /\
    ((msg_content msg = c /\ w' = w /\ v = view_of msg) \/
     (msg_content msg <> c /\
      w' = mkWorld (mkDB (threads (db w))
                         (update_first mid (set_content c (now (db w))) (messages (db w)))
                         (next_id (db w)) (N.succ (now (db w)))) (trace w) /\
      v = view_of (set_content c (now (db w)) msg))).
Proof.
  unfold updateMessage. destruct (str_truthy c); simpl; [| discriminate].
  unfold message_findById, bind, get_db, ret, throw. simpl.
  fold (find_msg mid (messages (db w))).
  destruct (find_msg mid (messages (db w))) as [msg |] eqn:Em; [| discriminate].
  rewrite verify_owner_eq. simpl.
  destruct (opt_truthy u) eqn:Eu.
  - destruct (find_thread _ _) as [th |] eqn:Et; [| discriminate].
    destruct (String.eqb (thread_userId th) (opt_or u "")) eqn:Eo; [| discriminate].
    intros H. exists msg. split; [reflexivity |].
    split; [rewrite verify_owner_eq; simpl; rewrite Eu, Et, Eo; reflexivity |].
    destruct (find_msg_some _ _ _ Em) as [Hid _].
    unfold message_save_content, bind, get_db, put_db, ret in H.
    destruct (String.eqb_spec (msg_content msg) c) as [Ec | Nc].
    + left. injection H as <- <-. auto.
    + right. injection H as <- <-. rewrite Hid. auto.
  - intros H. exists msg. split; [reflexivity |].
    split; [rewrite verify_owner_eq; simpl; rewrite Eu; reflexivity |].
    destruct (find_msg_some _ _ _ Em) as [Hid _].
    unfold message_save_content, bind, get_db, put_db, ret in H.
    destruct (String.eqb_spec (msg_content msg) c) as [Ec | Nc].
    + left. injection H as <- <-. auto.
    + right. injection H as <- <-. rewrite Hid. auto.
Qed.

Lemma find_update_first (mid : N) (f : Message -> Message) (ms : list Message) (m : Message) :
  find_msg mid ms = Some m -> message_id (f m) = mid ->
  find_msg mid (update_first mid f ms) = Some (f m).
Proof.
  unfold find_msg. induction ms as [| x ms IH]; simpl; [discriminate |].
  destruct (message_id x =? mid)%N eqn:E.
  - intros H Hf. injection H as <-. simpl. rewrite Hf, N.eqb_refl. reflexivity.
  - intros H Hf. simpl. rewrite E. apply IH; assumption.
Qed.

Lemma update_first_map {B} (g : Message -> B) (mid : N) (f : Message -> Message) (ms : list Message) :
  (forall m, g (f m) = g m) -> map g (update_first mid f ms) = map g ms.
Proof.
  intros Hg. induction ms as [| x ms IH]; simpl; [reflexivity |].
  destruct (message_id x =? mid)%N; simpl; rewrite ?Hg, ?IH; reflexivity.
Qed.

Lemma update_first_keeps (mid : N) (f : Message -> Message) (ms : list Message) (m : Message) :
  In m ms -> message_id m <> mid -> In m (update_first mid f ms).
Proof.
  induction ms as [| x ms IH]; simpl; [tauto |].
  intros [-> | Hin] Hne.
  - destruct (N.eqb_spec (message_id m) mid); [contradiction | left; reflexivity].
  - destruct (message_id x =? mid)%N; right; [exact Hin | apply IH; assumption].
Qed.

(** After a successful PUT /:id, a GET /:id of the same message returns
    the updated view, whose content is the new content. *)
Theorem updateMessage_then_get (mid : N) (c : string) (u : option string) (env : Env)
    (w w' : World) (v : MessageView) :
  updateMessage (IdOf mid) c u env w = (inr v, w') ->
  fst (getMessage (IdOf mid) None env w') = inr v /\ view_content v = c.
Proof.
  intros H. destruct (updateMessage_success _ _ _ _ _ _ _ H)
    as (msg & Em & _ & [(Ec & -> & ->) | (Nc & -> & ->)]).
  - rewrite getMessage_eq, Em. auto.
  - rewrite getMessage_eq. simpl.
    rewrite (find_update_first _ _ _ _ Em); [split; reflexivity |].
    apply (find_msg_some _ _ _ Em).
Qed.

(** PUT /:id changes nothing but content and update time of the one
    message: threads, the id counter, and every message's id, thread,
    sender and creation time are kept, and other messages stay in the store. *)
Theorem updateMessage_frame (mid : N) (c : string) (u : option string) (env : Env)
    (w w' : World) (v : MessageView) :
  updateMessage (IdOf mid) c u env w = (inr v, w') ->
  threads (db w') = threads (db w) /\ next_id (db w') = next_id (db w) /\
  map message_id (messages (db w')) = map message_id (messages (db w)) /\
  map message_threadId (messages (db w')) = map message_threadId (messages (db w)) /\
  map msg_sender (messages (db w')) = map msg_sender (messages (db w)) /\
  map message_createdAt (messages (db w')) = map message_createdAt (messages (db w)) /\
  (forall m, In m (messages (db w)) -> message_id m <> mid -> In m (messages (db w'))).
Proof.
  intros H. destruct (updateMessage_success _ _ _ _ _ _ _ H)
    as (msg & Em & _ & [(Ec & -> & ->) | (Nc & -> & ->)]).
  - repeat split; auto.
  - simpl. repeat split; try (apply update_first_map; reflexivity).
    intros m Hin Hne. apply update_first_keeps; assumption.
Qed.

Lemma deleteMessage_success (mid : N) (u : option string) (env : Env)
    (w w' : World) (r : DeleteResult) :
  deleteMessage (IdOf mid) u env w = (inr r, w') ->
  exists msg,
    find_msg mid (messages (db w)) = Some msg /\
    fst (verify_owner u (message_threadId msg)
           "You do not have permission to delete this message" env w) = inr tt /\
    w' = mkWorld (mkDB (threads (db w)) (delete_first mid (messages (db w)))
                       (next_id (db w)) (now (db w))) (trace w) /\
    r = mkDeleteResult mid (message_threadId msg) true.
Proof.
  unfold deleteMessage. simpl.
  unfold message_findById, message_findByIdAndDelete, bind, get_db, put_db, ret, throw. simpl.
  fold (find_msg mid (messages (db w))).
  destruct (find_msg mid (messages (db w))) as [msg |] eqn:Em; [| discriminate].
  intros H. exists msg. split; [reflexivity |].
  rewrite verify_owner_eq in H |- *. simpl in H |- *.
  destruct (opt_truthy u).
  - destruct (find_thread _ _) as [th |]; [| discriminate].
    destruct (String.eqb (thread_userId th) (opt_or u "")); [| discriminate].
    injection H as <- <-. auto.
  - injection H as <- <-. auto.
Qed.

Lemma delete_first_length (mid : N) (ms : list Message) (m : Message) :
  find_msg mid ms = Some m -> S (length (delete_first mid ms)) = length ms.
Proof.
  unfold find_msg. induction ms as [| x ms IH]; simpl; [discriminate |].
  destruct (message_id x =? mid)%N; [reflexivity |].
  intros H. simpl. rewrite (IH H). reflexivity.
Qed.

Lemma delete_first_keeps (mid : N) (ms : list Message) (m : Message) :
  In m ms -> message_id m <> mid -> In m (delete_first mid ms).
Proof.
  induction ms as [| x ms IH]; simpl; [tauto |].
  intros [-> | Hin] Hne.
  - destruct (N.eqb_spec (message_id m) mid); [contradiction | left; reflexivity].
  - destruct (message_id x =? mid)%N; [exact Hin | right; apply IH; assumption].
Qed.

Lemma find_msg_none (mid : N) (ms : list Message) :
  ~ In mid (map message_id ms) -> find_msg mid ms = None.
Proof.
  unfold find_msg. induction ms as [| x ms IH]; simpl; [reflexivity |].
  intros H. destruct (N.eqb_spec (message_id x) mid) as [E | _].
  - exfalso. apply H. left. exact E.
  - apply IH. intros Hin. apply H. right. exact Hin.
Qed.

Lemma delete_first_gone (mid : N) (ms : list Message) :
  NoDup (map message_id ms) -> find_msg mid (delete_first mid ms) = None.
Proof.
  induction ms as [| x ms IH]; simpl; [reflexivity |].
  intros Hnd. inversion Hnd as [| ? ? Hnin Hnd']; subst.
  destruct (N.eqb_spec (message_id x) mid) as [E | Ne].
  - apply find_msg_none. rewrite <- E. exact Hnin.
  - unfold find_msg. simpl. destruct (N.eqb_spec (message_id x) mid); [contradiction |].
    apply IH. exact Hnd'.
Qed.

(** DELETE removes the message, and a later GET of it finds nothing. *)
Theorem deleteMessage_removes (mid : N) (u : option string) (env : Env)
    (w w' : World) (r : DeleteResult) :
  NoDup (map message_id (messages (db w))) ->
  deleteMessage (IdOf mid) u env w = (inr r, w') ->
  S (length (messages (db w'))) = length (messages (db w)) /\
  threads (db w') = threads (db w) /\
  (forall m, In m (messages (db w)) -> message_id m <> mid -> In m (messages (db w'))) /\
  (exists msg, In msg (messages (db w)) /\ message_id msg = mid /\
               r = mkDeleteResult mid (message_threadId msg) true) /\
  fst (getMessage (IdOf mid) None env w') = inl (NotFoundError "Message not found").
Proof.
  intros Hnd H. destruct (deleteMessage_success _ _ _ _ _ _ H) as (msg & Em & _ & -> & ->).
  destruct (find_msg_some _ _ _ Em) as [Hid Hin].
  simpl. split; [apply (delete_first_length _ _ _ Em) |].
  split; [reflexivity |]. split; [intros m Hm Hne; apply delete_first_keeps; assumption |].
  split; [exists msg; auto |].
  rewrite getMessage_eq. simpl. rewrite delete_first_gone by exact Hnd. reflexivity.
Qed.

(** A failed PUT or DELETE leaves the store as it was. *)
Theorem message_routes_fail_atomic (id : IdArg) (c : string) (u : option string)
    (env : Env) (w : World) :
  match updateMessage id c u env w with (inl _, w') => w' = w | _ => True end /\
  match deleteMessage id u env w with (inl _, w') => w' = w | _ => True end.
Proof.
  destruct id as [mid | s]; [| unfold updateMessage; destruct (str_truthy c); split; reflexivity].
  split.
  - unfold updateMessage. destruct (str_truthy c); simpl; [| reflexivity].
    unfold message_findById, bind, get_db, ret, throw. simpl.
    destruct (find _ _) as [msg |]; [| reflexivity].
    rewrite verify_owner_eq. simpl.
    destruct (opt_truthy u); [destruct (find_thread _ _) as [th |];
      [destruct (String.eqb _ _) |] |]; try reflexivity;
    unfold message_save_content, bind, get_db, put_db, ret;
    destruct (String.eqb _ _); exact I.
  - unfold deleteMessage. simpl.
    unfold message_findById, message_findByIdAndDelete, bind, get_db, put_db, ret, throw. simpl.
    destruct (find _ _) as [msg |]; [| reflexivity].
    rewrite verify_owner_eq. simpl.
    destruct (opt_truthy u); [destruct (find_thread _ _) as [th |];
      [destruct (String.eqb _ _) |] |]; try reflexivity; exact I.
Qed.

(** With a non-empty [userId], a successful PUT or DELETE is on a message
    whose thread exists and belongs to that user. *)
Theorem message_routes_owner (mid : N) (c s : string) (env : Env) (w : World) :
  str_truthy s = true ->
  ((exists v w', updateMessage (IdOf mid) c (Some s) env w = (inr v, w')) \/
   (exists r w', deleteMessage (IdOf mid) (Some s) env w = (inr r, w'))) ->
  exists msg thread,
    find (fun m => (message_id m =? mid)%N) (messages (db w)) = Some msg /\
    find (fun t => (thread_id t =? message_threadId msg)%N) (threads (db w)) = Some thread /\
    thread_userId thread = s.
Proof.
  intros Hs Hok.
  assert (Hv : forall msg d, fst (verify_owner (Some s) (message_threadId msg) d env w) = inr tt ->
             exists thread,
               find (fun t => (thread_id t =? message_threadId msg)%N) (threads (db w)) = Some thread /\
               thread_userId thread = s).
  { intros msg d H. rewrite verify_owner_eq in H. simpl in H. rewrite Hs in H.
    unfold find_thread in H. destruct (find _ _) as [th |]; [| discriminate].
    unfold opt_or, str_or in H. rewrite Hs in H.
    destruct (String.eqb_spec (thread_userId th) s); [| discriminate].
    exists th. auto. }
  destruct Hok as [(v & w' & H) | (r & w' & H)].
  - destruct (updateMessage_success _ _ _ _ _ _ _ H) as (msg & Em & Hvo & _).
    destruct (Hv _ _ Hvo) as (th & Et & Eu). exists msg, th. auto.
  - destruct (deleteMessage_success _ _ _ _ _ _ H) as (msg & Em & Hvo & _).
    destruct (Hv _ _ Hvo) as (th & Et & Eu). exists msg, th. auto.
Qed.

(** An absent or empty [userId] skips the ownership check: GET, PUT and
    DELETE behave as without a [userId]. *)
Theorem message_routes_falsy_user (id : IdArg) (c : string) (u : option string) :
  opt_truthy u = false ->
  getMessage id u = getMessage id None /\
  updateMessage id c u = updateMessage id c None /\
  deleteMessage id u = deleteMessage id None.
Proof.
  intros Hu. unfold getMessage, updateMessage, deleteMessage, verify_owner.
  rewrite Hu. repeat split; reflexivity.
Qed.


Lemma str_app_assoc (a b c : string) : (a ++ b) ++ c = a ++ (b ++ c).
Proof. induction a as [| x a IH]; simpl; [reflexivity | rewrite IH; reflexivity]. Qed.

Lemma getRAGResponse_outcome (u q : string) (t : option N) (env : Env) (w : World) :
  exists v w1, getRAGResponse u q t env w = (inr v, w1) /\ db w1 = db w.
Proof.
  unfold getRAGResponse, bind, ask_svc, ret, try_catch, post_rag.
  destruct (negb (enabled (svc env))); [eexists _, _; split; reflexivity |].
  destruct (axios_post _); eexists _, _; split; reflexivity.
Qed.

Lemma rag_prompt_suffix (ctx q : string) :
  exists pre, rag_prompt ctx q = pre ++ q.
Proof.
  unfold rag_prompt. simpl.
  exists ("### Relevant Previous Information:" ++ nl ++ ctx ++ nl ++ (nl ++ "### Current User Query:") ++ nl).
  rewrite !str_app_assoc. reflexivity.
Qed.

(** The prompt always ends with the user's query, and the store is not touched. *)
Theorem enhancePromptWithRAG_keeps_query (userId query : string) (threadId : N)
    (env : Env) (w : World) :
  let '(r, w') := enhancePromptWithRAG userId query threadId env w in
  db w' = db w /\ exists pre, r = inr (pre ++ query).
Proof.
  unfold enhancePromptWithRAG, bind, ask_svc, ret.
  destruct (negb (enabled (svc env)) || negb (shouldUseSemanticSearch query)).
  - split; [reflexivity | exists ""; reflexivity].
  - unfold try_catch, bind.
    destruct (getRAGResponse_outcome userId query (Some threadId) env w) as (v & w1 & E & Hdb).
    rewrite E. destruct v as [r |].
    + simpl. split; [exact Hdb |]. destruct (rag_prompt_suffix (opt_or (context r) "") query) as [pre Hp].
      exists pre. rewrite Hp. reflexivity.
    + simpl. split; [exact Hdb | exists ""; reflexivity].
Qed.

(** When the service is disabled, or the query is shorter than ten
    characters after trimming, or trivial, the query is returned as it is,
    with no request. *)
Theorem enhancePromptWithRAG_skip (userId query : string) (threadId : N) (env : Env) (w : World) :
  enabled (svc env) = false \/ Nat.ltb (String.length (trim query)) 10 = true \/
  isTrivialMessage query = true ->
  enhancePromptWithRAG userId query threadId env w = (inr query, w).
Proof.
  intros H. unfold enhancePromptWithRAG, bind, ask_svc, ret.
  assert (Hs : negb (enabled (svc env)) || negb (shouldUseSemanticSearch query) = true).
  { unfold shouldUseSemanticSearch.
    destruct H as [H | [H | H]];
      [rewrite H; reflexivity | rewrite H; simpl; apply orb_true_r
      | rewrite H; destruct (Nat.ltb _ _); simpl; apply orb_true_r]. }
  rewrite Hs. reflexivity.
Qed.

(** When enabled and the query calls for semantic search, a failed
    [/rag-generate] request gives the prompt built around the fallback
    error context, and a 2xx response gives the prompt built around its
    [context] (empty when absent). *)
Theorem enhancePromptWithRAG_fetched (userId query : string) (threadId : N) (env : Env) (w : World) :
  enabled (svc env) = true -> shouldUseSemanticSearch query = true ->
  let req := mkRagRequest (url_of (svc env) ++ "/rag-generate") userId (Some threadId) query in
  (http_failed (rag_backend env req) ->
     fst (enhancePromptWithRAG userId query threadId env w) = inr (rag_prompt error_context query)) /\
  (forall st r, rag_backend env req = HttpResponse st (Some r) ->
     (200 <= st)%N -> (st < 300)%N ->
     fst (enhancePromptWithRAG userId query threadId env w)
       = inr (rag_prompt (opt_or (context r) "") query)).
Proof.
  intros He Hs req. unfold enhancePromptWithRAG, bind, ask_svc, ret, try_catch.
  rewrite He, Hs. simpl. unfold getRAGResponse, bind, ask_svc, try_catch, post_rag, ret.
  rewrite He. simpl. fold req. split.
  - intros Hf. destruct (rag_backend env req) as [st d | m |]; simpl; [| reflexivity | reflexivity].
    simpl in Hf. destruct ((200 <=? st)%N && (st <? 300)%N) eqn:E; [| reflexivity].
    exfalso. apply Hf. apply andb_true_iff in E as [E1 E2].
    split; [apply N.leb_le | apply N.ltb_lt]; assumption.
  - intros st r Hr H1 H2. rewrite Hr. simpl.
    apply N.leb_le in H1. apply N.ltb_lt in H2. rewrite H1, H2. reflexivity.
Qed.

Lemma lower_char_idem (c : ascii) : lower_char (lower_char c) = lower_char c.
Proof. destruct c as [[] [] [] [] [] [] [] []]; reflexivity. Qed.

Lemma toLowerCase_idem (s : string) : toLowerCase (toLowerCase s) = toLowerCase s.
Proof. induction s as [| c s IH]; simpl; [reflexivity | rewrite lower_char_idem, IH; reflexivity]. Qed.

(** The mock reply does not depend on letter case and is never empty. *)
Theorem generateMockResponse_case_insensitive (userMessage : string) (providedContext : option string) :
  generateMockResponse (toLowerCase userMessage) providedContext
    = generateMockResponse userMessage providedContext /\
  generateMockResponse userMessage providedContext <> "".
Proof.
  split.
  - unfold generateMockResponse. rewrite toLowerCase_idem. reflexivity.
  - unfold generateMockResponse.
    repeat match goal with |- context [if ?b then _ else _] => destruct b end; discriminate.
Qed.


Lemma yields_ret {A} (P : A -> Prop) (a : A) : P a -> yields P (ret a).
Proof. intros Ha env w a' w' H. injection H as <- _. exact Ha. Qed.

Lemma yields_bind {A B} (P : B -> Prop) (m : M A) (f : A -> M B) :
  (forall a, yields P (f a)) -> yields P (bind m f).
Proof.
  intros Hf env w b w' H. unfold bind in H.
  destruct (m env w) as [[e | a] w1]; [discriminate | exact (Hf a env w1 b w' H)].
Qed.

Lemma nonempty_opt_or (o : option string) (d : string) :
  d <> "" -> opt_or o d <> "".
Proof.
  intros Hd. destruct o as [s |]; simpl; [| exact Hd].
  unfold str_or. destruct s; simpl; [exact Hd | discriminate].
Qed.

(** [generateResponse] never rejects: it resolves to a non-empty string,
    which in mock mode is the mock reply, computed without any request
    or store access. *)
Theorem generateResponse_total (re_compile : string -> option (string -> bool))
    (complete : string -> list ChatMessage -> Exc (option string))
    (self : OpenAIService) (threadId : N) (userMessage : string)
    (context : list CtxMessage) (providedContext : option string) (env : Env) (w : World) :
  (exists s, fst (generateResponse re_compile complete self threadId userMessage context
                    providedContext env w) = inr s /\ s <> "") /\
  (useMockResponses self = true \/ has_client self = false ->
   generateResponse re_compile complete self threadId userMessage context providedContext env w
     = (inr (generateMockResponse userMessage providedContext), w)).
Proof.
  split.
  - unfold generateResponse, try_catch.
    match goal with |- context [match ?b env w with _ => _ end] =>
      assert (Hy : yields (fun s => s <> "") b) end.
    { destruct (useMockResponses self || negb (has_client self)).
      - apply yields_ret. apply generateMockResponse_case_insensitive.
      - apply yields_bind. intros [enhancedPrompt memoryContext].
        apply yields_bind. intros completion.
        apply yields_bind. intros s. apply yields_bind. intros _.
        apply yields_ret. apply nonempty_opt_or. discriminate. }
    match goal with |- context [match ?b env w with _ => _ end] =>
      destruct (b env w) as [[e | a] w1] eqn:E end.
    + exists (generateMockResponse userMessage providedContext). split; [reflexivity |].
      apply generateMockResponse_case_insensitive.
    + exists a. split; [reflexivity | exact (Hy env w a w1 E)].
  - intros H. unfold generateResponse, try_catch.
    assert (Hm : useMockResponses self || negb (has_client self) = true).
    { destruct H as [H | H]; rewrite H; [reflexivity | apply orb_true_r]. }
    rewrite Hm. reflexivity.
Qed.

Lemma str_length_app (a b : string) : String.length (a ++ b) = String.length a + String.length b.
Proof. induction a as [| c a IH]; simpl; [reflexivity | rewrite IH; reflexivity]. Qed.

Lemma prefix_app (a b : string) : String.prefix a (a ++ b) = true.
Proof.
  induction a as [| c a IH]; simpl; [destruct b; reflexivity |].
  destruct (ascii_dec c c) as [_ | C]; [exact IH | congruence].
Qed.

Lemma prefix_self (s : string) : String.prefix s s = true.
Proof.
  induction s as [| c s IH]; simpl; [reflexivity |].
  destruct (ascii_dec c c) as [_ | C]; [exact IH | congruence].
Qed.

(** The messages sent to the completion: the system message, one message
    per context element, the prompt.  A context message's text is cut to
    its first 4000 characters plus a 23-character marker, is kept as it is
    when not longer than 4000 characters, and has role [assistant]
    exactly when its sender is ['system']. *)
Theorem build_messages_shape (memoryContext : string) (context : list CtxMessage)
    (enhancedPrompt : string) :
  length (build_messages memoryContext context enhancedPrompt) = length context + 2 /\
  (forall msg, In msg context ->
     let content := opt_or (ctx_content msg) "" in
     let cm := chat_of_context msg in
     In cm (build_messages memoryContext context enhancedPrompt) /\
     String.length (chat_content cm) <= MAX_CONTEXT_LENGTH + 23 /\
     String.prefix (substring0 MAX_CONTEXT_LENGTH content) (chat_content cm) = true /\
     (String.length content <= MAX_CONTEXT_LENGTH -> chat_content cm = content) /\
     (role cm = "assistant" <-> ctx_sender msg = Some "system")).
Proof.
  split.
  - unfold build_messages. simpl. rewrite length_app, length_map. simpl. lia.
  - intros msg Hin content cm. split.
    + unfold build_messages. right. apply in_or_app. left. apply in_map. exact Hin.
    + assert (Hr : role cm = "assistant" <-> ctx_sender msg = Some "system").
      { unfold cm, chat_of_context, sender_is_system. simpl.
        destruct (ctx_sender msg) as [s |]; [| split; discriminate].
        destruct (String.eqb_spec s "system") as [-> | Ne]; [split; reflexivity |].
        split; [discriminate | intros H; injection H as ->; contradiction]. }
      unfold cm, chat_of_context. fold content. simpl.
      destruct (substring0_spec MAX_CONTEXT_LENGTH content) as [Hp Hl].
      destruct (Nat.ltb_spec MAX_CONTEXT_LENGTH (String.length content)) as [Lt | Ge].
      * split.
        { rewrite str_length_app, Hl.
          replace (String.length "... [content truncated]") with 23 by reflexivity. unfold MAX_CONTEXT_LENGTH in *. lia. }
        split; [apply prefix_app |]. split; [intros Hle; unfold MAX_CONTEXT_LENGTH in *; lia | exact Hr].
      * split; [unfold MAX_CONTEXT_LENGTH in *; lia |]. split; [exact Hp |]. split; [reflexivity | exact Hr].
Qed.


Lemma includes_app_r (p s k : string) : includes s k = true -> includes (p ++ s) k = true.
Proof.
  intros H. induction p as [| c p IH]; simpl; [exact H |].
  rewrite IH. match goal with |- (if ?b then _ else _) = _ => destruct b end; reflexivity.
Qed.


(** [connectToDatabase] does nothing when the connection is ready; on
    success the connection is ready; every failure message starts with
    ['Failed to connect to MongoDB: '] and leaves it disconnected; a
    missing URI wraps the configuration error once more in that prefix. *)
Theorem connectToDatabase_behaviour (mongodbUri : option string)
    (connect : string -> ConnectOutcome) (c : Conn) :
  ((readyState c = 1)%N -> connectToDatabase mongodbUri connect c = (inr tt, c)) /\
  (forall c', connectToDatabase mongodbUri connect c = (inr tt, c') ->
     readyState c' = 1%N) /\
  (forall m c', connectToDatabase mongodbUri connect c = (inl m, c') ->
     (exists rest, m = "Failed to connect to MongoDB: " ++ rest) /\ isConnected c' = false) /\
  ((readyState c <> 1)%N -> opt_truthy mongodbUri = false ->
     connectToDatabase mongodbUri connect c =
       (inl "Failed to connect to MongoDB: MongoDB URI is not configured. Please set MONGO_URI environment variable.",
        mkConn (readyState c) false)).
Proof.
  unfold connectToDatabase.
  destruct (N.eqb_spec (readyState c) 1) as [E1 | N1].
  - split; [reflexivity |]. split; [intros c' H; injection H as <-; exact E1 |].
    split; [discriminate | intros H; contradiction].
  - split; [intros H; contradiction |].
    destruct (opt_truthy mongodbUri) eqn:Eu; simpl.
    + destruct (connect _) as [| m |]; simpl.
      * split; [intros c' H; injection H as <-; reflexivity |].
        split; [discriminate | discriminate].
      * split; [discriminate |]. split; [| discriminate].
        intros m' c' H. injection H as <- <-. split; [eexists; reflexivity | reflexivity].
      * split; [discriminate |]. split; [| discriminate].
        intros m' c' H. injection H as <- <-. split; [eexists; reflexivity | reflexivity].
    + split; [discriminate |]. split; [| reflexivity].
      intros m' c' H. injection H as <- <-. split; [eexists; reflexivity | reflexivity].
Qed.


(** The serverless handler either passes on what the Express app does
    (an error of the app rejects the handler's promise), connected, or
    answers a failed connection itself, always with status 503; once
    connected, it does not connect again. *)
Theorem handler_outcomes (mongodbUri : option string) (connect : string -> ConnectOutcome)
    (app : AppOutcome) (st : HandlerState) :
  (forall out st', handler mongodbUri connect app st = (out, st') ->
     (out = outcome_of_app app /\ dbConnected st' = true) \/
     (exists rest, out = HandlerResponded 503 ("Failed to connect to MongoDB: " ++ rest) /\
                   dbConnected st' = false)) /\
  (dbConnected st = true -> handler mongodbUri connect app st = (outcome_of_app app, st)).
Proof.
  split.
  - intros out st'. unfold handler, ensureDbConnection.
    destruct (dbConnected st) eqn:Ed.
    + intros H. injection H as <- <-. left. split; [destruct app; reflexivity | exact Ed].
    + destruct (connectToDatabase mongodbUri connect (conn st)) as [[m | []] c'] eqn:Ec.
      * destruct (proj1 (proj2 (proj2 (connectToDatabase_behaviour mongodbUri connect (conn st))))
                   m c' Ec) as [[rest ->] _].
        intros H. injection H as <- <-. right. exists rest. split; [| reflexivity].
        replace (includes ("Failed to connect to MongoDB: " ++ rest) "MongoDB") with true.
        { reflexivity. }
        symmetry. change ("Failed to connect to MongoDB: " ++ rest)
          with ("Failed to connect to " ++ ("MongoDB" ++ (": " ++ rest))).
        apply includes_app_r. destruct (": " ++ rest); reflexivity.
      * intros H. injection H as <- <-. left. split; [destruct app; reflexivity | reflexivity].
  - intros Ed. unfold handler, ensureDbConnection. rewrite Ed. destruct app; reflexivity.
Qed.

Lemma str_or_empty (s : string) : str_or s "" = s.
Proof. destruct s; reflexivity. Qed.

Lemma split_char_aux_app (sep : ascii) (x rest : string) (cur : list ascii) :
  ~ In sep (list_ascii_of_string x) ->
  split_char_aux sep (x ++ rest) cur = split_char_aux sep rest (rev (list_ascii_of_string x) ++ cur).
Proof.
  revert cur. induction x as [| c x IH]; intros cur Hx; simpl; [reflexivity |].
  destruct (Ascii.eqb_spec c sep) as [-> | Ne].
  - exfalso. apply Hx. left. reflexivity.
  - rewrite IH by (intros H; apply Hx; right; exact H).
    rewrite <- app_assoc. reflexivity.
Qed.

Lemma split_char_no_sep (sep : ascii) (s : string) (cur : list ascii) :
  ~ In sep cur ->
  Forall (fun e => ~ In sep (list_ascii_of_string e)) (split_char_aux sep s cur).
Proof.
  revert cur. induction s as [| c s IH]; intros cur Hc; simpl.
  - constructor; [| constructor].
    rewrite list_ascii_of_string_of_list_ascii. intros H. apply Hc. apply in_rev. exact H.
  - destruct (Ascii.eqb_spec c sep) as [-> | Ne].
    + constructor; [| apply IH; simpl; tauto].
      rewrite list_ascii_of_string_of_list_ascii. intros H. apply Hc. apply in_rev. exact H.
    + apply IH. simpl. intros [E | H]; [congruence | exact (Hc H)].
Qed.

Lemma str_app_nil (s : string) : s ++ "" = s.
Proof. induction s as [| c s IH]; simpl; [reflexivity | rewrite IH; reflexivity]. Qed.

Lemma split_join (l : list string) :
  l <> [] -> Forall (fun e => ~ In ","%char (list_ascii_of_string e)) l ->
  split_char ","%char (join "," l) = l.
Proof.
  unfold split_char. induction l as [| x l IH]; intros Hne Hf; [contradiction |].
  inversion Hf as [| ? ? Hx Hl]; subst.
  destruct l as [| y l].
  - simpl. rewrite <- (str_app_nil x) at 1. rewrite (split_char_aux_app _ x "" []) by exact Hx.
    simpl. rewrite app_nil_r, rev_involutive, string_of_list_ascii_of_string. reflexivity.
  - change (join "," (x :: y :: l)) with (x ++ String ","%char (join "," (y :: l))).
    rewrite (split_char_aux_app _ x _ []) by exact Hx. simpl.
    rewrite app_nil_r, rev_involutive, string_of_list_ascii_of_string.
    f_equal. apply IH; [discriminate | exact Hl].
Qed.

(** [ADMIN_EMAILS] is read as its comma-separated entries, empty ones
    dropped: every entry is non-empty and has no comma, and a list of such
    entries joined with commas reads back as that list. *)
Theorem adminEmails_roundtrip :
  (forall ADMIN_EMAILS, Forall (fun e => e <> "" /\ ~ In ","%char (list_ascii_of_string e))
                               (adminEmails ADMIN_EMAILS)) /\
  (forall l, Forall (fun e => e <> "" /\ ~ In ","%char (list_ascii_of_string e)) l ->
     adminEmails (Some (join "," l)) = l).
Proof.
  split.
  - intros x. unfold adminEmails.
    pose proof (split_char_no_sep ","%char (opt_or x "") [] (fun H => H)) as Hs.
    unfold split_char. induction Hs as [| e l He Hl IH]; simpl; [constructor |].
    destruct (str_truthy e) eqn:Et; [| exact IH].
    constructor; [| exact IH]. split; [apply str_truthy_nonempty; exact Et | exact He].
  - intros l Hf. unfold adminEmails. simpl. rewrite str_or_empty.
    destruct l as [| x l]; [reflexivity |].
    rewrite split_join.
    + clear -Hf. induction Hf as [| e l0 [He _] _ IH]; simpl; [reflexivity |].
      apply str_truthy_nonempty in He. rewrite He, IH. reflexivity.
    + discriminate.
    + eapply Forall_impl; [| exact Hf]. intros e [_ H]. exact H.
Qed.

Lemma getMessage_access_witness :
  str_truthy "u1" = true /\
  fst (getMessage (IdOf 1) (Some "u1") env_disabled memory_world)
    = inr (view_of (mkMessage 1 0 "I built an IoT dashboard" "u1" [] 1 1)) /\
  fst (getMessage (IdOf 5) None env_disabled memory_world)
    = inl (NotFoundError "Message not found").
Proof.
  pose proof (getMessage_access 1 "u1" env_disabled memory_world
                (view_of (mkMessage 1 0 "I built an IoT dashboard" "u1" [] 1 1)) eq_refl) as [H1 _].
  pose proof (getMessage_access 5 "u1" env_disabled memory_world
                (view_of (mkMessage 1 0 "I built an IoT dashboard" "u1" [] 1 1)) eq_refl) as [_ H2].
  split; [reflexivity |]. split; [| exact H2].
  apply H1. eexists; eexists; repeat split; reflexivity.
Defined.

Lemma updateMessage_then_get_witness :
  match updateMessage (IdOf 1) "I built an IoT robot" (Some "u1") env_disabled memory_world with
  | (inr v, w') =>
      fst (getMessage (IdOf 1) None env_disabled w') = inr v /\
      view_content v = "I built an IoT robot"
  | (inl _, _) => False
  end.
Proof.
  destruct (updateMessage (IdOf 1) "I built an IoT robot" (Some "u1") env_disabled memory_world)
    as [[e | v] w'] eqn:E.
  - vm_compute in E. discriminate E.
  - exact (updateMessage_then_get 1 "I built an IoT robot" (Some "u1") env_disabled
             memory_world w' v E).
Defined.

Lemma updateMessage_frame_witness :
  match updateMessage (IdOf 1) "I built an IoT robot" (Some "u1") env_disabled memory_world with
  | (inr v, w') =>
      threads (db w') = threads (db memory_world) /\
      map message_id (messages (db w')) = map message_id (messages (db memory_world))
  | (inl _, _) => False
  end.
Proof.
  destruct (updateMessage (IdOf 1) "I built an IoT robot" (Some "u1") env_disabled memory_world)
    as [[e | v] w'] eqn:E.
  - vm_compute in E. discriminate E.
  - destruct (updateMessage_frame 1 "I built an IoT robot" (Some "u1") env_disabled
                memory_world w' v E) as (H1 & _ & H3 & _).
    split; assumption.
Defined.

Lemma deleteMessage_removes_witness :
  NoDup (map message_id (messages (db memory_world))) /\
  match deleteMessage (IdOf 1) (Some "u1") env_disabled memory_world with
  | (inr r, w') =>
      S (length (messages (db w'))) = length (messages (db memory_world)) /\
      fst (getMessage (IdOf 1) None env_disabled w') = inl (NotFoundError "Message not found")
  | (inl _, _) => False
  end.
Proof.
  assert (Hnd : NoDup (map message_id (messages (db memory_world)))).
  { simpl. constructor; [intros [] | constructor]. }
  split; [exact Hnd |].
  destruct (deleteMessage (IdOf 1) (Some "u1") env_disabled memory_world)
    as [[e | r] w'] eqn:E.
  - vm_compute in E. discriminate E.
  - destruct (deleteMessage_removes 1 (Some "u1") env_disabled memory_world w' r Hnd E)
      as (H1 & _ & _ & _ & H5).
    split; assumption.
Defined.

Lemma message_routes_owner_witness :
  str_truthy "u1" = true /\
  (exists r w', deleteMessage (IdOf 1) (Some "u1") env_disabled memory_world = (inr r, w')) /\
  exists msg thread,
    find (fun m => (message_id m =? 1)%N) (messages (db memory_world)) = Some msg /\
    find (fun t => (thread_id t =? message_threadId msg)%N) (threads (db memory_world)) = Some thread /\
    thread_userId thread = "u1".
Proof.
  assert (Hs : str_truthy "u1" = true) by reflexivity.
  assert (Hd : exists r w', deleteMessage (IdOf 1) (Some "u1") env_disabled memory_world = (inr r, w')).
  { eexists; eexists; vm_compute; reflexivity. }
  split; [exact Hs |]. split; [exact Hd |].
  exact (message_routes_owner 1 "" "u1" env_disabled memory_world Hs (or_intror Hd)).
Defined.

Lemma message_routes_falsy_user_witness :
  opt_truthy (Some "") = false /\
  fst (deleteMessage (IdOf 1) (Some "") env_disabled other_world) = inr (mkDeleteResult 1 0 true) /\
  fst (deleteMessage (IdOf 1) (Some "u1") env_disabled other_world)
    = inl (UnauthorizedError "You do not have permission to delete this message").
Proof.
  assert (Hu : opt_truthy (Some "") = false) by reflexivity.
  split; [exact Hu |]. split; [| reflexivity].
  rewrite (proj2 (proj2 (message_routes_falsy_user (IdOf 1) "" (Some "") Hu))).
  reflexivity.
Defined.

Lemma enhancePromptWithRAG_skip_witness :
  isTrivialMessage "hiiiiiiiiiiii" = true /\
  enhancePromptWithRAG "u1" "hiiiiiiiiiiii" 0 env_failing empty_world
    = (inr "hiiiiiiiiiiii", empty_world).
Proof.
  assert (Ht : isTrivialMessage "hiiiiiiiiiiii" = true) by reflexivity.
  split; [exact Ht |].
  exact (enhancePromptWithRAG_skip "u1" "hiiiiiiiiiiii" 0 env_failing empty_world
           (or_intror (or_intror Ht))).
Defined.

Lemma enhancePromptWithRAG_fetched_witness :
  enabled (svc env_failing) = true /\
  shouldUseSemanticSearch "What is IoT used for?" = true /\
  fst (enhancePromptWithRAG "u1" "What is IoT used for?" 0 env_failing empty_world)
    = inr (rag_prompt error_context "What is IoT used for?").
Proof.
  assert (He : enabled (svc env_failing) = true) by reflexivity.
  assert (Hs : shouldUseSemanticSearch "What is IoT used for?" = true) by reflexivity.
  split; [exact He |]. split; [exact Hs |].
  apply (proj1 (enhancePromptWithRAG_fetched "u1" "What is IoT used for?" 0 env_failing
                  empty_world He Hs)).
  simpl. intros [_ H]. lia.
Defined.
